(** * The WOD tracker's list view: grid planning, filtering and windowing

    A shallow embedding of [wod-tracker/src/components/WodList.tsx] (with its
    two sibling variants), of [Dashboard.tsx] with its search filter, and of
    the card of one record, [WodCard].

    Conventions.
    - A JavaScript [number] that holds a width, a length or an index is an
      integer [Z]; the one quotient, [wods.length / columnCount], is taken on
      values far under 2^53, where [Math.ceil] of it is the exact ceiling.
    - A height or an offset is an integer [Z] as well: a whole number of
      layout units, on which sums are exact.
    - A JavaScript string is its sequence of UTF-16 code units, [list N].
    - An array is a [list]; [Array.prototype.slice] is written out with its
      clamping of relative indices. *)

From stdpp Require Import gmap list sorting.
From Stdlib Require Import ZArith Lia.

Local Open Scope Z_scope.

(** ** Data model *)

Definition jsstring := list N.

(** [Wod] of [types]: one dated record. *)
Record Wod := mkWod { date : jsstring; content : jsstring }.

(** ** Layout grid planner *)

Module Layout.

(** [getColumnCount] of WodList.tsx (the same text in both virtualized
    variants). *)
Definition getColumnCount (width : Z) : Z :=
  if 1280 <=? width then 5
  else if 1024 <=? width then 3
  else if 768 <=? width then 2
  else 1.

(** [Math.ceil (n / c)] for a positive divisor. *)
Definition Math_ceil_div (n c : Z) : Z := - ((- n) / c).

(** ToIntegerOrInfinity followed by the clamping that [slice] applies to a
    relative index. *)
Definition relative_index (len k : Z) : Z :=
  if k <? 0 then Z.max (len + k) 0 else Z.min k len.

(** [Array.prototype.slice (start, end)]. *)
Definition slice {A : Type} (l : list A) (start end_ : Z) : list A :=
  let len := Z.of_nat (length l) in
  let k := relative_index len start in
  let final := relative_index len end_ in
  take (Z.to_nat (final - k)) (drop (Z.to_nat k) l).

(** [const rowCount = Math.ceil(wods.length / columnCount)]. *)
Definition rowCount {A : Type} (wods : list A) (columnCount : Z) : Z :=
  Math_ceil_div (Z.of_nat (length wods)) columnCount.

(** The body of the row callback:
    [startIndex = virtualRow.index * columnCount;
     rowWods = wods.slice(startIndex, startIndex + columnCount)]. *)
Definition rowWods {A : Type} (wods : list A) (columnCount index : Z) : list A :=
  let startIndex := index * columnCount in
  slice wods startIndex (startIndex + columnCount).

(** The row indices [0 .. rowCount - 1] the virtualizer ranges over. *)
Definition rowIndices (count : Z) : list Z :=
  Z.of_nat <$> seq 0 (Z.to_nat count).

(** The partition the list view draws its rows from. *)
Definition partition {A : Type} (wods : list A) (columnCount : Z) : list (list A) :=
  rowWods wods columnCount <$> rowIndices (rowCount wods columnCount).

End Layout.

(** ** Search filter (Dashboard.tsx) *)

Module Search.

Local Open Scope N_scope.

(** The WhiteSpace and LineTerminator code units that
    [String.prototype.trim] strips. *)
Definition isWhiteSpace (c : N) : bool :=
  (9 <=? c) && (c <=? 13)
  || (c =? 32) || (c =? 160) || (c =? 5760)
  || (8192 <=? c) && (c <=? 8202)
  || (c =? 8232) || (c =? 8233) || (c =? 8239) || (c =? 8287)
  || (c =? 12288) || (c =? 65279).

Fixpoint trimStart (s : jsstring) : jsstring :=
  match s with
  | c :: s' => if isWhiteSpace c then trimStart s' else s
  | [] => []
  end.

Definition trimEnd (s : jsstring) : jsstring := reverse (trimStart (reverse s)).

Definition trim (s : jsstring) : jsstring := trimEnd (trimStart s).

(** ToBoolean on a string: only the empty string is falsy. *)
Definition truthy (s : jsstring) : bool :=
  match s with [] => false | _ :: _ => true end.

(** [s.startsWith(t)]. *)
Fixpoint startsWith (s t : jsstring) {struct t} : bool :=
  match t, s with
  | [], _ => true
  | _ :: _, [] => false
  | b :: t', a :: s' => (a =? b) && startsWith s' t'
  end.

(** [s.includes(t)]: [t] occurs in [s] at some position. *)
Fixpoint includes (s t : jsstring) : bool :=
  startsWith s t ||
  match s with
  | [] => false
  | _ :: s' => includes s' t
  end.

Section Filter.

(** [String.prototype.toLowerCase], a built-in of the host. *)
Variable toLowerCase : jsstring → jsstring.

(** The [filteredWods] memo of [Dashboard]. *)
Definition filteredWods (wods : list Wod) (debouncedSearchTerm : jsstring) : list Wod :=
  if negb (truthy (trim debouncedSearchTerm)) then wods
  else
    let searchLower := toLowerCase debouncedSearchTerm in
    List.filter (λ wod, includes (toLowerCase (content wod)) searchLower) wods.

End Filter.

(** ASCII lower-casing, an instance of the built-in on ASCII text, used to
    run the filter on examples. *)
Definition asciiLower (s : jsstring) : jsstring :=
  (λ c, if (65 <=? c) && (c <=? 90) then c + 32 else c) <$> s.

End Search.

(** ** Size cache *)

Module SizeCache.

(** Modelled from the spec: the size cache of the virtualizer, which lives in
    the [@tanstack/react-virtual] package and not in this repository. A row
    index is bound to a height once the row has been measured; [get] falls
    back to the estimate for a row without entry, [set] records a
    measurement, [invalidateAll] drops every entry. *)
Definition get (estimate : Z) (cache : gmap nat Z) (rowIndex : nat) : Z :=
  default estimate (cache !! rowIndex).

Definition set (rowIndex : nat) (height : Z) (cache : gmap nat Z) : gmap nat Z :=
  <[rowIndex := height]> cache.

Definition invalidateAll (cache : gmap nat Z) : gmap nat Z := ∅.

Definition measured (cache : gmap nat Z) (rowIndex : nat) : bool :=
  bool_decide (is_Some (cache !! rowIndex)).

End SizeCache.

(** ** Virtualization engine *)

Module Engine.

Record VirtualItem := mkItem { index : nat; start : Z; size : Z }.

Section Engine.

Variable estimate : Z.
Variable cache : gmap nat Z.

Definition height (i : nat) : Z := SizeCache.get estimate cache i.

(** Modelled from the spec: the cumulative offset of a row is the running sum
    of the cached heights of the rows before it (the virtualizer's own code is
    in [@tanstack/react-virtual], outside this repository). *)
Fixpoint offset (i : nat) : Z :=
  match i with
  | O => 0
  | S j => offset j + height j
  end.

(** Modelled from the spec: the total height is the cumulative offset after
    the last row. *)
Definition totalHeight (rowCount : nat) : Z := offset rowCount.

(** The smallest row index below [rowCount] that satisfies [p], if any. *)
Definition smallest (p : nat → bool) (rowCount : nat) : option nat :=
  List.find p (seq 0 rowCount).

(** Modelled from the spec: the smallest [i] with
    [offset i + height i > scrollOffset]; a scroll offset past every row
    selects the last row. *)
Definition firstVisible (rowCount : nat) (scrollOffset : Z) : nat :=
  default (rowCount - 1)%nat
    (smallest (λ i, scrollOffset <? offset i + height i) rowCount).

(** Modelled from the spec: the smallest [i] with
    [offset i ≥ scrollOffset + viewportHeight]; when no row starts that far
    down, the last row. *)
Definition firstBelow (rowCount : nat) (scrollOffset viewportHeight : Z) : nat :=
  default (rowCount - 1)%nat
    (smallest (λ i, scrollOffset + viewportHeight <=? offset i) rowCount).

(** Modelled from the spec: [firstVisible] minus [overscanCount], clamped to
    0 (the subtraction of [nat] stops at 0). *)
Definition startRowIndex (rowCount : nat) (scrollOffset : Z) (overscanCount : nat) : nat :=
  (firstVisible rowCount scrollOffset - overscanCount)%nat.

(** Modelled from the spec: [firstBelow] plus [overscanCount], clamped to
    [rowCount - 1]. *)
Definition endRowIndex (rowCount : nat) (scrollOffset viewportHeight : Z)
    (overscanCount : nat) : nat :=
  ((firstBelow rowCount scrollOffset viewportHeight + overscanCount)
     `min` (rowCount - 1))%nat.

(** Modelled from the spec: the visible window; it is empty when there is no
    row. *)
Definition visibleWindow (rowCount : nat) (scrollOffset viewportHeight : Z)
    (overscanCount : nat) : list nat :=
  match rowCount with
  | O => []
  | S _ =>
      let s := startRowIndex rowCount scrollOffset overscanCount in
      let e := endRowIndex rowCount scrollOffset viewportHeight overscanCount in
      seq s (S e - s)
  end.

Definition getVirtualItems (rowCount : nat) (scrollOffset viewportHeight : Z)
    (overscanCount : nat) : list VirtualItem :=
  (λ i, mkItem i (offset i) (height i))
    <$> visibleWindow rowCount scrollOffset viewportHeight overscanCount.

Definition getTotalSize (rowCount : nat) : Z := totalHeight rowCount.

End Engine.

End Engine.

(** ** The list view component *)

Module WodList.

Record Props := mkProps { wods : list Wod; searchTerm : jsstring }.

(** [<WodCard key={wod.date} wod={wod} searchTerm={searchTerm} />] *)
Record Card := mkCard { key : jsstring; wod : Wod; cardSearchTerm : jsstring }.

(** One absolutely positioned row container. *)
Record Row := mkRow { dataIndex : nat; translateY : Z; rowCards : list Card }.

Inductive View :=
  | NoResults
  | Virtual (height : Z) (rows : list Row)
  | Grid (cards : list Card).

(** What one render reads from the browser: the window width, and the scroll
    position and height of the scroll element. *)
Record Env := mkEnv { innerWidth : Z; scrollOffset : Z; viewportHeight : Z }.

(** What the component keeps between renders: the virtualizer's size cache,
    and the [columnCount] dependency recorded by the last run of the effect
    ([None] before the first render). *)
Record State := mkState { itemSizeCache : gmap nat Z; effectDeps : option Z }.

Definition estimateSize : Z := 300.
Definition overscan : nat := 3.

(** [measureElement: (element) => element.getBoundingClientRect().height + 16] *)
Definition measureElement (rectHeight : Z) : Z := rectHeight + 16.

Definition card (searchTerm : jsstring) (w : Wod) : Card :=
  mkCard (date w) w searchTerm.

(** The cards of the row with the given index, [rowWods.map(...)]; the two
    virtualized variants build a row from the same slice. *)
Definition cardsOfRow (props : Props) (columnCount index : Z) : list Card :=
  card (searchTerm props) <$> Layout.rowWods (wods props) columnCount index.

(** The function body of [WodList] in WodList.tsx. *)
Definition render (env : Env) (st : State) (props : Props) : View :=
  let columnCount := Layout.getColumnCount (innerWidth env) in
  let rowCount := Z.to_nat (Layout.rowCount (wods props) columnCount) in
  if (length (wods props) =? 0)%nat then NoResults
  else
    Virtual
      (Engine.getTotalSize estimateSize (itemSizeCache st) rowCount)
      ((λ virtualRow,
          mkRow (Engine.index virtualRow) (Engine.start virtualRow)
            (cardsOfRow props columnCount (Z.of_nat (Engine.index virtualRow))))
         <$> Engine.getVirtualItems estimateSize (itemSizeCache st) rowCount
               (scrollOffset env) (viewportHeight env) overscan).

(** Modelled from the spec: [virtualizer.measure()] of
    [@tanstack/react-virtual] (not in this repository) is the cache's
    [invalidateAll]. *)
Definition measure (st : State) : State :=
  mkState (SizeCache.invalidateAll (itemSizeCache st)) (effectDeps st).

(** [useEffect(() => { virtualizer.measure(); }, [columnCount, virtualizer])]:
    the callback runs after a render whose dependencies differ from those of
    the previous run. The window variant registers the same callback with
    [useLayoutEffect]. *)
Definition effect (columnCount : Z) (virtualizerChanged : bool) (st : State) : State :=
  if bool_decide (effectDeps st = Some columnCount) && negb virtualizerChanged
  then st
  else mkState (itemSizeCache (measure st)) (Some columnCount).

(** One render pass: the function body yields the view from the state it
    finds, then the effect runs. *)
Definition renderPass (env : Env) (virtualizerChanged : bool) (st : State)
    (props : Props) : View * State :=
  (render env st props,
   effect (Layout.getColumnCount (innerWidth env)) virtualizerChanged st).

(** Modelled from the spec: the row container's ref hands the element to the
    virtualizer, which stores [measureElement element] for the row through
    the cache's [set]. *)
Definition onMeasure (rowIndex : nat) (rectHeight : Z) (st : State) : State :=
  mkState (SizeCache.set rowIndex (measureElement rectHeight) (itemSizeCache st))
    (effectDeps st).

(** The plain grid variant of [WodList], without virtualization. *)
Definition renderPlain (props : Props) : View :=
  if (length (wods props) =? 0)%nat then NoResults
  else Grid (card (searchTerm props) <$> wods props).

End WodList.

(** ** The dashboard (Dashboard.tsx) *)

Module Dashboard.

(** [Array.prototype.sort (compareFn)]: the sort is stable, an element moves
    behind another one only where [compareFn] of the two is positive. Each
    element is put in front of the sorted elements that followed it and moves
    back past those it compares greater than. *)
Fixpoint insert {A : Type} (compareFn : A → A → Z) (x : A) (l : list A) : list A :=
  match l with
  | [] => [x]
  | y :: l' => if compareFn x y <=? 0 then x :: l else y :: insert compareFn x l'
  end.

Definition sort {A : Type} (compareFn : A → A → Z) (l : list A) : list A :=
  foldr (insert compareFn) [] l.

(** The line above the list: how many records are shown. *)
Inductive Counter :=
  | Showing (shown total : nat)
  | Available (total : nat).

Record View := mkView { counter : Counter; listProps : WodList.Props }.

Section Dashboard.

(** [new Date(s).getTime()] and [String.prototype.toLowerCase], built-ins of
    the host. The keys of the data file are dates that parse, so that
    [getTime] of them is a number. *)
Variable getTime : jsstring → Z.
Variable toLowerCase : jsstring → jsstring.

(** [(a, b) => new Date(b.date).getTime() - new Date(a.date).getTime()] *)
Definition byDateDescending (a b : Wod) : Z := getTime (date b) - getTime (date a).

(** The [wods] memo: [Object.entries(data).map(...).sort(...)], from the
    entries of the data file in their order. *)
Definition wods (entries : list (jsstring * jsstring)%type) : list Wod :=
  sort byDateDescending ((λ entry, mkWod entry.1 entry.2) <$> entries).

(** What [Dashboard] hands down for a debounced search term. *)
Definition render (entries : list (jsstring * jsstring)%type)
    (debouncedSearchTerm : jsstring) : View :=
  let filtered := Search.filteredWods toLowerCase (wods entries) debouncedSearchTerm in
  mkView
    (if Search.truthy debouncedSearchTerm
     then Showing (length filtered) (length (wods entries))
     else Available (length (wods entries)))
    (WodList.mkProps filtered debouncedSearchTerm).

End Dashboard.

End Dashboard.

(** ** The card of one record (WodCard.tsx) *)

Module WodCard.

Local Open Scope N_scope.

(** [s.replace(/c/g, by)] for a pattern of one code unit [c]. *)
Definition replaceAll (c : N) (by_ : jsstring) (s : jsstring) : jsstring :=
  d ← s; if d =? c then by_ else [d].

(** [formatContent]: the female and the male sign get the text variation
    selector U+FE0E appended. *)
Definition formatContent (text : jsstring) : jsstring :=
  replaceAll 9794 [9794; 65038] (replaceAll 9792 [9792; 65038] text).

(** The class [[.*+?^${}()|[\]\\]] of the escaping pattern. *)
Definition escaped (c : N) : bool :=
  (c =? 46) || (c =? 42) || (c =? 43) || (c =? 63) || (c =? 94) || (c =? 36)
  || (c =? 123) || (c =? 125) || (c =? 40) || (c =? 41) || (c =? 124)
  || (c =? 91) || (c =? 93) || (c =? 92).

(** [search.replace(/[.*+?^${}()|[\]\\]/g, "\\$&")]: a backslash in front of
    every code unit of the class. *)
Definition escape (search : jsstring) : jsstring :=
  d ← search; if escaped d then [92; d] else [d].

(** SyntaxCharacter of the pattern grammar: [^ $ \ . * + ? ( ) [ ] { } |]. *)
Definition isSyntaxCharacter (c : N) : bool :=
  (c =? 94) || (c =? 36) || (c =? 92) || (c =? 46) || (c =? 42) || (c =? 43)
  || (c =? 63) || (c =? 40) || (c =? 41) || (c =? 91) || (c =? 93)
  || (c =? 123) || (c =? 125) || (c =? 124).

(** The text that a run of pattern source matches literally, when the run
    consists of pattern characters and of identity escapes of syntax
    characters only; [None] for any other pattern. *)
Fixpoint literalOf (source : jsstring) : option jsstring :=
  match source with
  | [] => Some []
  | c :: source' =>
      if c =? 92 then
        match source' with
        | d :: source'' =>
            if isSyntaxCharacter d then cons d <$> literalOf source'' else None
        | [] => None
        end
      else if isSyntaxCharacter c then None
      else cons c <$> literalOf source'
  end.

(** [new RegExp(source, "gi")] for a source that is one capture group around
    a literal: the literal; [None] for a source of another shape. *)
Definition compile (source : jsstring) : option jsstring :=
  match source with
  | 40 :: rest =>
      match reverse rest with
      | 41 :: body => literalOf (reverse body)
      | _ => None
      end
  | _ => None
  end.

Inductive Node :=
  | Text (s : jsstring)
  | Mark (key : nat) (s : jsstring).

Inductive Rendered :=
  | Plain (s : jsstring)
  | Parts (nodes : list Node).

Definition nodeText (n : Node) : jsstring :=
  match n with Text s | Mark _ s => s end.

Section Highlight.

(** Canonicalize of the [i] flag, on code units. *)
Variable canonicalize : N → N.

(** The literal matches at the start of [s], ignoring case. *)
Fixpoint matchesAt (s literal : jsstring) {struct literal} : bool :=
  match literal, s with
  | [], _ => true
  | _ :: _, [] => false
  | b :: literal', a :: s' =>
      (canonicalize a =? canonicalize b) && matchesAt s' literal'
  end.

(** The first index at which the literal matches in [s]. *)
Fixpoint search (literal s : jsstring) : option nat :=
  if matchesAt s literal then Some 0%nat
  else match s with
       | [] => None
       | _ :: s' => S <$> search literal s'
       end.

(** [regex.test(s)] for a regex with the [g] flag: the search starts at
    [lastIndex]; a match leaves [lastIndex] at its end, a failure resets it
    to 0. The result is the answer and the new [lastIndex]. *)
Definition test (literal : jsstring) (lastIndex : nat) (s : jsstring) : bool * nat :=
  if (length s <? lastIndex)%nat then (false, 0%nat)
  else match search literal (drop lastIndex s) with
       | Some q => (true, (lastIndex + q + length literal)%nat)
       | None => (false, 0%nat)
       end.

(** The loop of [text.split(regex)] for a regex that is a capture group: at
    each index of the text the regex is tried; a match that is not an empty
    match at the start of the current piece ends the piece, and the piece and
    the captured text go to the result. [cur] is the piece so far. *)
Fixpoint splitLoop (literal : jsstring) (fuel : nat) (cur rest : jsstring)
    : list jsstring :=
  match fuel with
  | O => [cur ++ rest]
  | S fuel' =>
      match rest with
      | [] => [cur]
      | c :: rest' =>
          if matchesAt rest literal
             && negb ((length literal =? 0)%nat && bool_decide (cur = []))
          then cur :: take (length literal) rest
                 :: splitLoop literal fuel' [] (drop (length literal) rest)
          else splitLoop literal fuel' (cur ++ [c]) rest'
      end
  end.

Definition split (literal text : jsstring) : list jsstring :=
  match text with
  | [] => if matchesAt [] literal then [] else [[]]
  | _ :: _ => splitLoop literal (S (2 * length text)) [] text
  end.

(** [parts.map((part, index) => regex.test(part) ? <mark key={index}>...
    : part)]: the calls of [test] share the regex and its [lastIndex]. *)
Fixpoint markParts (literal : jsstring) (index lastIndex : nat)
    (parts : list jsstring) : list Node :=
  match parts with
  | [] => []
  | part :: parts' =>
      let r := test literal lastIndex part in
      (if r.1 then Mark index part else Text part)
        :: markParts literal (S index) r.2 parts'
  end.

(** [highlightText]. The result is [None] when the pattern is outside the
    fragment that [compile] covers. *)
Definition highlightText (text search : jsstring) : option Rendered :=
  if negb (Search.truthy (Search.trim search)) then Some (Plain text)
  else
    regex ← compile ([40] ++ escape search ++ [41]);
    Some (Parts (markParts regex 0 0 (split regex text))).

(** The content of the card:
    [searchTerm ? highlightText(wod.content, searchTerm)
                : formatContent(wod.content)]. *)
Definition cardContent (wod : Wod) (searchTerm : jsstring) : option Rendered :=
  if Search.truthy searchTerm then highlightText (content wod) searchTerm
  else Some (Plain (formatContent (content wod))).

End Highlight.

End WodCard.

(** ** The list view over time *)

Module Session.

(** What happens to a mounted list view: a render pass, or the measurement
    of a row's element. *)
Inductive Event :=
  | Pass (env : WodList.Env) (virtualizerChanged : bool) (props : WodList.Props)
  | Measured (rowIndex : nat) (rectHeight : Z).

Definition step (st : WodList.State) (ev : Event) : WodList.State :=
  match ev with
  | Pass env virtualizerChanged props =>
      (WodList.renderPass env virtualizerChanged st props).2
  | Measured rowIndex rectHeight => WodList.onMeasure rowIndex rectHeight st
  end.

Definition run (st : WodList.State) (events : list Event) : WodList.State :=
  foldl step st events.

End Session.

(** ** Auxiliary notions for the statements *)

(** The sum of a list of heights. *)
Definition Zsum (l : list Z) : Z := foldr Z.add 0 l.

(** The height style of the inner container, when the view has one. *)
Definition viewHeight (v : WodList.View) : option Z :=
  match v with
  | WodList.Virtual h _ => Some h
  | _ => None
  end.

(** The rows a view shows. *)
Definition viewRows (v : WodList.View) : list WodList.Row :=
  match v with
  | WodList.Virtual _ rows => rows
  | _ => []
  end.

(** [t] occurs in [s] as a contiguous run of code units. *)
Definition occursIn (t s : jsstring) : Prop := ∃ pre post, s = pre ++ t ++ post.

(** A string that is empty or holds white space only. *)
Definition blank (s : jsstring) : Prop :=
  Forall (λ c, Search.isWhiteSpace c = true) s.

(** Three records, for the examples. *)
Definition three_wods : WodList.Props :=
  WodList.mkProps
    [mkWod [49%N] [97%N]; mkWod [50%N] [98%N]; mkWod [51%N] [99%N]] [].

(** A state left by renders at two columns, in which row 0 was measured. *)
Definition measured_at_two_columns : WodList.State :=
  WodList.mkState {[ 0%nat := 340 ]} (Some 2).

(** A narrow window, scrolled to the top. *)
Definition narrow_env : WodList.Env := WodList.mkEnv 600 0 800.

(** [a] may stand before [b] in a list ordered by date, latest first. *)
Definition latestFirst (getTime : jsstring → Z) : relation Wod :=
  λ a b, getTime (date b) ≤ getTime (date a).

(** The record of one entry of the data file. *)
Definition wodOfEntry (entry : jsstring * jsstring) : Wod :=
  mkWod entry.1 entry.2.

(** An event that keeps the column count [c]: a measurement, or a render
    pass at a width of [c] columns with the same virtualizer. *)
Definition keepsColumns (c : Z) (ev : Session.Event) : Prop :=
  match ev with
  | Session.Pass env virtualizerChanged _ =>
      Layout.getColumnCount (WodList.innerWidth env) = c
      ∧ virtualizerChanged = false
  | Session.Measured _ _ => True
  end.

(** The height stored by the latest measurement of row [i] among the
    events, if there is one. *)
Definition lastMeasured (i : nat) (events : list Session.Event) : option Z :=
  foldl (λ latest ev,
           match ev with
           | Session.Measured j h =>
               if decide (j = i) then Some (WodList.measureElement h) else latest
           | Session.Pass _ _ _ => latest
           end) None events.

(** [a] and [b] are equal up to case: code unit by code unit they have the
    same canonical form. *)
Definition foldEq (canonicalize : N → N) (a b : jsstring) : Prop :=
  canonicalize <$> a = canonicalize <$> b.

(** [t] occurs in [s] up to case. *)
Definition occursFolded (canonicalize : N → N) (t s : jsstring) : Prop :=
  ∃ pre m post, s = pre ++ m ++ post ∧ foldEq canonicalize m t.

(** A list that alternates between elements that satisfy [P] and elements
    that satisfy [Q], from a [P] to a [P]. *)
Inductive alternating {A : Type} (P Q : A → Prop) : list A → Prop :=
  | alternating_one x : P x → alternating P Q [x]
  | alternating_more x y l :
      P x → Q y → alternating P Q l → alternating P Q (x :: y :: l).

(** The text that a rendered content shows. *)
Definition renderedText (r : WodCard.Rendered) : jsstring :=
  match r with
  | WodCard.Plain s => s
  | WodCard.Parts nodes => concat (WodCard.nodeText <$> nodes)
  end.

(** For the examples: a clock that reads a date of one code unit as that
    code unit, and three entries out of date order. *)
Definition unitTime (s : jsstring) : Z :=
  match s with
  | [c] => Z.of_N c
  | _ => 0
  end.

Definition example_entries : list (jsstring * jsstring) :=
  [([48%N], [97%N]); ([50%N], [98%N]); ([49%N], [99%N])].

(** ** Properties of the planner *)

Section LayoutFacts.
Import Layout.

Lemma getColumnCount_cases (width : Z) :
  getColumnCount width = 5 ∧ 1280 ≤ width
  ∨ getColumnCount width = 3 ∧ 1024 ≤ width < 1280
  ∨ getColumnCount width = 2 ∧ 768 ≤ width < 1024
  ∨ getColumnCount width = 1 ∧ width < 768.
Proof.
  unfold getColumnCount.
  destruct (Z.leb_spec 1280 width); [lia|].
  destruct (Z.leb_spec 1024 width); [lia|].
  destruct (Z.leb_spec 768 width); lia.
Qed.

Lemma getColumnCount_pos (width : Z) : 1 ≤ getColumnCount width.
Proof. destruct (getColumnCount_cases width) as [?|[?|[?|?]]]; lia. Qed.

(** The ceiling is the least [k] with [n ≤ k * c]. *)
Lemma Math_ceil_div_bounds (n c : Z) :
  0 < c → n ≤ Math_ceil_div n c * c < n + c.
Proof.
  intros Hc. unfold Math_ceil_div.
  pose proof (Z.div_mod (- n) c ltac:(lia)) as Hdm.
  pose proof (Z.mod_pos_bound (- n) c Hc) as Hm.
  nia.
Qed.

Lemma Math_ceil_div_nonneg (n c : Z) : 0 < c → 0 ≤ n → 0 ≤ Math_ceil_div n c.
Proof. intros Hc Hn. pose proof (Math_ceil_div_bounds n c Hc). nia. Qed.

Lemma Math_ceil_div_least (n c k : Z) :
  0 < c → n ≤ k * c → Math_ceil_div n c ≤ k.
Proof. intros Hc Hk. pose proof (Math_ceil_div_bounds n c Hc). nia. Qed.

End LayoutFacts.

(** ** Claims on the breakpoint table *)

Section Breakpoints.
Import Layout.

(** C5: [getColumnCount] follows the breakpoint table — 5 from width 1280 on,
    else 3 from 1024 on, else 2 from 768 on, else 1 — so that width 1400
    gives 5 columns and width 900 gives 2, and the result is always an
    integer that is at least 1. *)
Theorem getColumnCount_table (width : Z) :
  (1280 ≤ width → getColumnCount width = 5)
  ∧ (1024 ≤ width < 1280 → getColumnCount width = 3)
  ∧ (768 ≤ width < 1024 → getColumnCount width = 2)
  ∧ (width < 768 → getColumnCount width = 1)
  ∧ getColumnCount 1400 = 5
  ∧ getColumnCount 900 = 2
  ∧ 1 ≤ getColumnCount width.
Proof.
  pose proof (getColumnCount_cases width) as Hc.
  repeat split; try reflexivity; try (intros; lia).
Qed.

(** C6: [getColumnCount] is monotonic non-decreasing in the width. *)
Theorem getColumnCount_monotone (w1 w2 : Z) :
  w1 ≤ w2 → getColumnCount w1 ≤ getColumnCount w2.
Proof.
  intros Hle.
  pose proof (getColumnCount_cases w1).
  pose proof (getColumnCount_cases w2).
  lia.
Qed.

Lemma getColumnCount_monotone_witness :
  1023 ≤ 1024 ∧ getColumnCount 1023 ≤ getColumnCount 1024.
Proof.
  split; [lia | apply (getColumnCount_monotone 1023 1024); lia].
Defined.

End Breakpoints.

(** ** Claims on the row partition *)

Section Partition.
Import Layout.
Context {A : Type}.
Implicit Types (wods : list A) (c index : Z) (i n : nat).

Lemma relative_index_nonneg (len k : Z) :
  0 ≤ k → relative_index len k = Z.min k len.
Proof. intros Hk. unfold relative_index. destruct (Z.ltb_spec k 0); [lia|done]. Qed.

(** For non-negative bounds, [slice] is the items from [start] up to, and
    without, [min end length]. *)
Lemma slice_nonneg wods (start end_ : Z) :
  0 ≤ start ≤ end_ →
  slice wods start end_
  = take (Z.to_nat (Z.min end_ (Z.of_nat (length wods)) - start))
      (drop (Z.to_nat start) wods).
Proof.
  intros [Hs He]. unfold slice.
  rewrite !relative_index_nonneg by lia.
  destruct (Z.le_gt_cases start (Z.of_nat (length wods))) as [Hin|Hout].
  - by rewrite (Z.min_l start) by lia.
  - rewrite !(drop_ge wods) by lia. by rewrite !take_nil.
Qed.

Lemma rowWods_slice wods c i :
  1 ≤ c →
  rowWods wods c (Z.of_nat i)
  = take (Z.to_nat (Z.min ((Z.of_nat i + 1) * c) (Z.of_nat (length wods))
                    - Z.of_nat i * c))
      (drop (Z.to_nat (Z.of_nat i * c)) wods).
Proof.
  intros Hc. unfold rowWods. rewrite slice_nonneg by nia.
  do 3 f_equal. lia.
Qed.

(** A row is also the [c] items after the first [i * c], as far as there are
    that many. *)
Lemma rowWods_chunk wods c i :
  1 ≤ c →
  rowWods wods c (Z.of_nat i) = take (Z.to_nat c) (drop (i * Z.to_nat c) wods).
Proof.
  intros Hc. rewrite rowWods_slice by done.
  replace (Z.to_nat (Z.of_nat i * c)) with (i * Z.to_nat c)%nat by nia.
  set (rest := drop (i * Z.to_nat c) wods).
  assert (length rest = (length wods - i * Z.to_nat c)%nat) as Hrest
    by (unfold rest; apply length_drop).
  destruct (Z.le_gt_cases ((Z.of_nat i + 1) * c) (Z.of_nat (length wods))).
  - f_equal. lia.
  - rewrite !take_ge; [done|nia..].
Qed.

Lemma concat_chunks wods (k n : nat) :
  concat ((λ i, take k (drop (i * k) wods)) <$> seq 0 n) = take (n * k) wods.
Proof.
  induction n as [|n IH]; [done|].
  rewrite seq_S, fmap_app, concat_app, IH. simpl.
  rewrite app_nil_r, take_take_drop. f_equal. lia.
Qed.

Lemma partition_chunks wods c :
  1 ≤ c →
  partition wods c
  = (λ i, take (Z.to_nat c) (drop (i * Z.to_nat c) wods))
      <$> seq 0 (Z.to_nat (rowCount wods c)).
Proof.
  intros Hc. unfold partition, rowIndices.
  rewrite <- list_fmap_compose. apply list_fmap_ext.
  intros _ i _. simpl. by apply rowWods_chunk.
Qed.

Lemma rowCount_bounds wods c :
  1 ≤ c →
  Z.of_nat (length wods) ≤ rowCount wods c * c < Z.of_nat (length wods) + c
  ∧ 0 ≤ rowCount wods c.
Proof.
  intros Hc. unfold rowCount. split.
  - apply Math_ceil_div_bounds. lia.
  - apply Math_ceil_div_nonneg; lia.
Qed.

Lemma partition_length wods c :
  1 ≤ c → Z.of_nat (length (partition wods c)) = rowCount wods c.
Proof.
  intros Hc. unfold partition, rowIndices.
  rewrite !length_fmap, length_seq.
  pose proof (rowCount_bounds wods c Hc). lia.
Qed.

Lemma partition_lookup wods c i :
  1 ≤ c → Z.of_nat i < rowCount wods c →
  partition wods c !! i = Some (rowWods wods c (Z.of_nat i)).
Proof.
  intros Hc Hi. unfold partition, rowIndices.
  rewrite !list_lookup_fmap, lookup_seq_lt by lia. done.
Qed.

Lemma partition_concat wods c : 1 ≤ c → concat (partition wods c) = wods.
Proof.
  intros Hc. rewrite partition_chunks, concat_chunks by done.
  apply take_ge. pose proof (rowCount_bounds wods c Hc). nia.
Qed.

Lemma rowWods_length wods c i :
  1 ≤ c →
  Z.of_nat (length (rowWods wods c (Z.of_nat i)))
  = Z.max 0 (Z.min ((Z.of_nat i + 1) * c) (Z.of_nat (length wods)) - Z.of_nat i * c).
Proof.
  intros Hc. rewrite rowWods_slice by done.
  rewrite length_take, length_drop. nia.
Qed.

End Partition.

Section PartitionClaims.
Import Layout.

(** C1: for every column count [c ≥ 1] and every item sequence of length
    [N], the partition of the list view has [ceil (N / c)] rows; row [i] is
    the slice of the items from [i * c] up to [min ((i + 1) * c) N]; every row
    but the last has exactly [c] items and the last has between 1 and [c];
    and the rows concatenated in index order are the item sequence itself. *)
Theorem partition_round_trip {A : Type} (wods : list A) (c : Z) :
  1 ≤ c →
  Z.of_nat (length (partition wods c)) = rowCount wods c
  ∧ Z.of_nat (length wods) ≤ rowCount wods c * c < Z.of_nat (length wods) + c
  ∧ (∀ i : nat, Z.of_nat i < rowCount wods c →
       partition wods c !! i
       = Some (take (Z.to_nat (Z.min ((Z.of_nat i + 1) * c) (Z.of_nat (length wods))
                               - Z.of_nat i * c))
                 (drop (Z.to_nat (Z.of_nat i * c)) wods)))
  ∧ (∀ (i : nat) (row : list A), partition wods c !! i = Some row →
       (Z.of_nat i < rowCount wods c - 1 → Z.of_nat (length row) = c)
       ∧ 1 ≤ Z.of_nat (length row) ≤ c)
  ∧ concat (partition wods c) = wods.
Proof.
  intros Hc.
  pose proof (rowCount_bounds wods c Hc) as [Hrows Hnonneg].
  pose proof (partition_length wods c Hc) as Hlen.
  split_and!; [done|lia|lia| | |by apply partition_concat].
  - intros i Hi. rewrite partition_lookup by done. by rewrite rowWods_slice.
  - intros i row Hrow.
    assert (Z.of_nat i < rowCount wods c) as Hi
      by (apply lookup_lt_Some in Hrow; lia).
    rewrite partition_lookup in Hrow by done. injection Hrow as <-.
    rewrite rowWods_length by done. nia.
Qed.

Lemma partition_round_trip_witness :
  partition (seq 0 23) 5
  = [ [0; 1; 2; 3; 4]; [5; 6; 7; 8; 9]; [10; 11; 12; 13; 14];
      [15; 16; 17; 18; 19]; [20; 21; 22] ]%nat
  ∧ concat (partition (seq 0 23) 5) = seq 0 23.
Proof.
  split; [reflexivity|].
  apply (partition_round_trip (seq 0 23) 5). lia.
Defined.

(** Scenario B of the spec: three items at two columns. *)
Example partition_3_by_2 : partition [10; 20; 30]%nat 2 = [[10; 20]; [30]]%nat.
Proof. reflexivity. Qed.

End PartitionClaims.

(** ** The virtualized view against the plain grid *)

Section Variants.
Import Layout WodList.

Lemma cardsOfRow_concat (props : Props) (c : Z) :
  1 ≤ c →
  concat (cardsOfRow props c <$> rowIndices (rowCount (wods props) c))
  = card (searchTerm props) <$> wods props.
Proof.
  intros Hc.
  rewrite <- (partition_concat (wods props) c Hc) at 2.
  unfold partition, cardsOfRow.
  generalize (rowIndices (rowCount (wods props) c)).
  induction l as [|i l IH]; [done|].
  by rewrite !fmap_cons, !concat_cons, fmap_app, IH.
Qed.

(** C10: for a non-empty item list and the column count of the current
    width, the cards of the virtualized rows, taken over all row indices
    [0 .. rowCount - 1] in order, are the cards that the plain grid variant
    renders, in the same order. *)
Theorem virtual_rows_match_plain_grid (props : Props) (width : Z) :
  wods props ≠ [] →
  renderPlain props
  = Grid (concat (cardsOfRow props (getColumnCount width)
                    <$> rowIndices (rowCount (wods props) (getColumnCount width)))).
Proof.
  intros Hne. unfold renderPlain.
  destruct (Nat.eqb_spec (length (wods props)) 0) as [Hlen|_].
  - by apply nil_length_inv in Hlen.
  - f_equal. symmetry. apply cardsOfRow_concat, getColumnCount_pos.
Qed.

Lemma virtual_rows_match_plain_grid_witness :
  wods three_wods ≠ []
  ∧ renderPlain three_wods
    = Grid (concat (cardsOfRow three_wods 2 <$> rowIndices 2)).
Proof.
  split; [discriminate|].
  apply (virtual_rows_match_plain_grid three_wods 900). discriminate.
Defined.

End Variants.

(** ** Claims on the search filter *)

Section SearchFacts.
Import Search.
Implicit Types (s t : jsstring) (c : N).

Lemma trimStart_nil s : trimStart s = [] ↔ blank s.
Proof.
  unfold blank. induction s as [|c s IH]; simpl.
  - split; [constructor|done].
  - destruct (isWhiteSpace c) eqn:Hc.
    + rewrite IH. split; [by constructor|by inversion 1].
    + split; [done|]. inversion 1; congruence.
Qed.

Lemma trimStart_head s c s' : trimStart s = c :: s' → isWhiteSpace c = false.
Proof.
  induction s as [|d s IH]; simpl; [done|].
  destruct (isWhiteSpace d) eqn:Hd; [done|]. by intros [= <- _].
Qed.

Lemma trim_nil s : trim s = [] ↔ blank s.
Proof.
  unfold trim, trimEnd. rewrite <- trimStart_nil. split.
  - intros Hnil.
    assert (trimStart (reverse (trimStart s)) = []) as Hrev.
    { by rewrite <- (reverse_involutive (trimStart _)), Hnil. }
    apply trimStart_nil in Hrev.
    destruct (trimStart s) as [|c s'] eqn:Hs; [done|].
    apply trimStart_head in Hs.
    unfold blank in Hrev. rewrite Forall_reverse in Hrev.
    inversion Hrev; congruence.
  - by intros ->.
Qed.

Lemma truthy_trim s : truthy (trim s) = false ↔ blank s.
Proof. rewrite <- trim_nil. by destruct (trim s). Qed.

Lemma startsWith_spec s t : startsWith s t = true ↔ ∃ post, s = t ++ post.
Proof.
  revert s. induction t as [|b t IH]; intros s; simpl.
  - split; [by exists s|done].
  - destruct s as [|a s].
    + split; [done|]. by intros [post ?].
    + rewrite andb_true_iff, N.eqb_eq, IH. split.
      * intros [-> [post ->]]. by exists post.
      * intros [post [= -> ->]]. eauto.
Qed.

Lemma includes_spec s t : includes s t = true ↔ occursIn t s.
Proof.
  unfold occursIn. induction s as [|a s IH]; simpl.
  - rewrite orb_false_r, startsWith_spec. split.
    + intros [post ->]. by exists [], post.
    + intros [pre [post Heq]]. symmetry in Heq.
      apply app_eq_nil in Heq as [-> Heq]. eauto.
  - rewrite orb_true_iff, startsWith_spec, IH. split.
    + intros [[post ->]|[pre [post ->]]]; [by exists [], post|].
      by exists (a :: pre), post.
    + intros [[|a' pre] [post Heq]]; [left; by exists post|right].
      injection Heq as -> ->. eauto.
Qed.

#[global] Instance occursIn_dec t s : Decision (occursIn t s).
Proof.
  refine (cast_if (decide (includes s t = true))); by rewrite <- includes_spec.
Defined.

Lemma List_filter_bool {B : Type} (f : B → bool) (P : B → Prop)
    `{!∀ x, Decision (P x)} (l : list B) :
  (∀ x, f x = true ↔ P x) → List.filter f l = filter P l.
Proof.
  intros Hf. induction l as [|x l IH]; [done|].
  simpl. rewrite filter_cons, IH.
  destruct (f x) eqn:Hx, (decide (P x)) as [HP|HP]; try done.
  - by apply Hf in Hx.
  - apply Hf in HP. congruence.
Qed.

End SearchFacts.

Section SearchClaim.
Import Search.

(** C9: when the debounced term is empty or made of white space only, the
    filtered list is the original list; otherwise it is, in the original
    order, exactly the records whose lower-cased content contains the
    lower-cased term as a substring. *)
Theorem filteredWods_spec (toLowerCase : jsstring → jsstring)
    (wods : list Wod) (term : jsstring) :
  (blank term → filteredWods toLowerCase wods term = wods)
  ∧ (¬ blank term →
     filteredWods toLowerCase wods term
     = filter (λ w, occursIn (toLowerCase term) (toLowerCase (content w))) wods
     ∧ filteredWods toLowerCase wods term `sublist_of` wods).
Proof.
  unfold filteredWods. split.
  - intros Hblank. apply truthy_trim in Hblank. by rewrite Hblank.
  - intros Hterm.
    destruct (truthy (trim term)) eqn:Htrim;
      [|by apply truthy_trim in Htrim].
    simpl.
    rewrite (List_filter_bool _
               (λ w, occursIn (toLowerCase term) (toLowerCase (content w))))
      by (intros w; apply includes_spec).
    split; [done|apply sublist_filter].
Qed.

(** The filter at work: "am" keeps the records that mention it in any case,
    and a blank term keeps all. *)
Example filteredWods_example :
  let wods := [ mkWod [49] [65; 77; 82; 65; 80]; mkWod [50] [82; 117; 110];
                mkWod [51] [116; 101; 97; 109] ]%N in
  filteredWods asciiLower wods [97; 109]%N
  = [ mkWod [49] [65; 77; 82; 65; 80]; mkWod [51] [116; 101; 97; 109] ]%N
  ∧ filteredWods asciiLower wods [32; 9]%N = wods.
Proof. split; reflexivity. Qed.

End SearchClaim.

(** ** The size cache and the running offsets *)

Section CacheFacts.
Import SizeCache Engine.
Implicit Types (estimate h : Z) (cache : gmap nat Z) (i j n : nat).

Lemma get_set_eq estimate cache i h : get estimate (set i h cache) i = h.
Proof. unfold get, set. by rewrite lookup_insert_eq. Qed.

Lemma get_set_ne estimate cache i j h :
  i ≠ j → get estimate (set i h cache) j = get estimate cache j.
Proof. intros Hne. unfold get, set. by rewrite lookup_insert_ne. Qed.

Lemma get_empty estimate i : get estimate ∅ i = estimate.
Proof. unfold get. by rewrite lookup_empty. Qed.

Lemma set_set estimate cache i h : set i h (set i h cache) = set i h cache.
Proof. unfold set. apply insert_insert_eq. Qed.

Lemma offset_sum estimate cache n :
  offset estimate cache n = Zsum (get estimate cache <$> seq 0 n).
Proof.
  induction n as [|n IH]; [done|].
  rewrite seq_S, fmap_app. simpl. rewrite IH. unfold height, Zsum.
  generalize (get estimate cache <$> seq 0 n) as l.
  induction l as [|x l IHl]; simpl; lia.
Qed.

Lemma offset_set estimate cache i h n :
  offset estimate (set i h cache) n
  = offset estimate cache n
    + (if decide (i < n)%nat then h - get estimate cache i else 0).
Proof.
  induction n as [|n IH]; [done|]. simpl. rewrite IH. unfold height.
  destruct (decide (i = n)) as [->|Hne].
  - rewrite get_set_eq. repeat case_decide; lia.
  - rewrite get_set_ne by done. repeat case_decide; lia.
Qed.

Lemma offset_empty estimate n : offset estimate ∅ n = estimate * Z.of_nat n.
Proof.
  induction n as [|n IH]; simpl; [lia|].
  unfold height. rewrite IH, get_empty. lia.
Qed.

Lemma offset_mono estimate cache n i j :
  (∀ k, (k < n)%nat → 0 ≤ height estimate cache k) →
  (i ≤ j)%nat → (j ≤ n)%nat → offset estimate cache i ≤ offset estimate cache j.
Proof.
  intros Hh. induction 1 as [|j _ IH]; [done|].
  intros Hj. simpl. specialize (Hh j ltac:(lia)). lia.
Qed.

End CacheFacts.

(** ** Claims on the total height *)

Section TotalHeight.
Import Layout SizeCache Engine WodList.

Lemma effect_same_deps (st : State) (c : Z) :
  effectDeps st = Some c → effect c false st = st.
Proof. intros Hdeps. unfold effect. by rewrite bool_decide_eq_true_2. Qed.

(** C4: the total height is the exact sum, over the row indices
    [0 .. rowCount - 1], of what the size cache returns for the row (the
    measured height, else the estimate). Writing one measurement for a row
    changes the total by the difference to the row's previous height, once:
    writing the same measurement again changes nothing, and a render pass
    without a new measurement and without a change of the column count leaves
    the cache, and so the total, as it was. *)
Theorem totalHeight_exact_sum (estimate : Z) (cache : gmap nat Z)
    (rowCount i : nat) (h : Z) :
  (i < rowCount)%nat →
  getTotalSize estimate cache rowCount
  = Zsum (get estimate cache <$> seq 0 rowCount)
  ∧ getTotalSize estimate (set i h cache) rowCount
    = getTotalSize estimate cache rowCount + (h - get estimate cache i)
  ∧ getTotalSize estimate (set i h (set i h cache)) rowCount
    = getTotalSize estimate (set i h cache) rowCount
  ∧ (∀ (env : Env) (props : Props) (deps : Z),
       deps = getColumnCount (innerWidth env) →
       itemSizeCache (renderPass env false (mkState cache (Some deps)) props).2
       = cache).
Proof.
  intros Hi. unfold getTotalSize, totalHeight. split_and!.
  - apply offset_sum.
  - rewrite offset_set. by rewrite decide_True.
  - by rewrite set_set.
  - intros env props deps ->. unfold renderPass. simpl.
    by rewrite effect_same_deps.
Qed.

(** Scenario E of the spec: ten rows estimated at 300; row 7 is measured
    at 340. *)
Lemma totalHeight_exact_sum_witness :
  getTotalSize 300 ∅ 10 = 3000
  ∧ getTotalSize 300 (set 7 340 ∅) 10 = getTotalSize 300 ∅ 10 + (340 - 300)
  ∧ getTotalSize 300 (set 7 340 (set 7 340 ∅)) 10 = 3040.
Proof.
  destruct (totalHeight_exact_sum 300 ∅ 10 7 340 ltac:(lia))
    as (Hsum & Hdelta & Hagain & _).
  split_and!.
  - rewrite Hsum. reflexivity.
  - rewrite Hdelta. reflexivity.
  - rewrite Hagain, Hdelta, Hsum. reflexivity.
Defined.

End TotalHeight.

(** ** The empty collection *)

Section Empty.
Import Layout Engine WodList.

(** C8: with no item, at any width, the row count is 0, the engine's window
    is empty and the total height is 0; the list view returns its "no
    workouts found" presentation, which holds no row, and so does the plain
    grid variant. Every function involved is total, nothing fails. *)
Theorem empty_collection (env : Env) (st : State) (term : jsstring) :
  rowCount (wods (mkProps [] term)) (getColumnCount (innerWidth env)) = 0
  ∧ getVirtualItems estimateSize (itemSizeCache st)
      (Z.to_nat (rowCount (wods (mkProps [] term)) (getColumnCount (innerWidth env))))
      (scrollOffset env) (viewportHeight env) overscan = []
  ∧ getTotalSize estimateSize (itemSizeCache st)
      (Z.to_nat (rowCount (wods (mkProps [] term)) (getColumnCount (innerWidth env)))) = 0
  ∧ render env st (mkProps [] term) = NoResults
  ∧ viewRows (render env st (mkProps [] term)) = []
  ∧ renderPlain (mkProps [] term) = NoResults.
Proof.
  assert (rowCount (wods (mkProps [] term)) (getColumnCount (innerWidth env)) = 0)
    as Hrows by (unfold rowCount, Math_ceil_div; simpl; by rewrite Zdiv_0_l).
  rewrite Hrows. done.
Qed.

End Empty.

(** ** Claims on the visible window *)

Section Window.
Import SizeCache Engine.

Lemma find_seq_Some (p : nat → bool) (a n i : nat) :
  List.find p (seq a n) = Some i →
  (a ≤ i < a + n)%nat ∧ p i = true ∧ ∀ j, (a ≤ j < i)%nat → p j = false.
Proof.
  revert a. induction n as [|n IH]; intros a; simpl; [done|].
  destruct (p a) eqn:Hpa.
  - intros [= <-]. split_and!; [lia|lia|done|lia].
  - intros Hfind. destruct (IH _ Hfind) as (Hi & Hpi & Hmin).
    split_and!; [lia|lia|done|].
    intros j Hj. destruct (decide (j = a)) as [->|Hne]; [done|].
    apply Hmin. lia.
Qed.

Lemma find_seq_None (p : nat → bool) (a n : nat) :
  List.find p (seq a n) = None → ∀ j, (a ≤ j < a + n)%nat → p j = false.
Proof.
  revert a. induction n as [|n IH]; intros a; simpl; [lia|].
  destruct (p a) eqn:Hpa; [done|].
  intros Hfind j Hj. destruct (decide (j = a)) as [->|Hne]; [done|].
  apply (IH _ Hfind). lia.
Qed.

Lemma smallest_Some (p : nat → bool) (n i : nat) :
  smallest p n = Some i →
  (i < n)%nat ∧ p i = true ∧ ∀ j, (j < i)%nat → p j = false.
Proof.
  intros Hfind. destruct (find_seq_Some _ _ _ _ Hfind) as (Hi & Hpi & Hmin).
  split_and!; [lia|done|]. intros j Hj. apply Hmin. lia.
Qed.

Lemma smallest_None (p : nat → bool) (n : nat) :
  smallest p n = None → ∀ j, (j < n)%nat → p j = false.
Proof. intros Hfind j Hj. apply (find_seq_None _ _ _ Hfind). lia. Qed.

Variable estimate : Z.
Variable cache : gmap nat Z.
Variable rowCount : nat.
Variables scrollOffset viewportHeight : Z.

Hypothesis rows_exist : (1 ≤ rowCount)%nat.
Hypothesis heights_nonneg :
  ∀ i, (i < rowCount)%nat → 0 ≤ height estimate cache i.
Hypothesis viewport_pos : 0 < viewportHeight.
Hypothesis scroll_nonneg : 0 ≤ scrollOffset.

Lemma firstVisible_range :
  (firstVisible estimate cache rowCount scrollOffset < rowCount)%nat.
Proof.
  unfold firstVisible.
  destruct (smallest _ rowCount) as [i|] eqn:Hs; simpl; [|lia].
  by apply smallest_Some in Hs as (? & _).
Qed.

Lemma firstVisible_offset :
  scrollOffset ≤ totalHeight estimate cache rowCount →
  offset estimate cache (firstVisible estimate cache rowCount scrollOffset)
  ≤ scrollOffset.
Proof.
  intros Hin. unfold firstVisible.
  destruct (smallest _ rowCount) as [i|] eqn:Hs; simpl.
  - apply smallest_Some in Hs as (Hi & _ & Hmin).
    destruct i as [|i]; [done|].
    specialize (Hmin i ltac:(lia)). simpl in *. lia.
  - pose proof (smallest_None _ _ Hs (rowCount - 1)%nat ltac:(lia)) as Hlast.
    simpl in Hlast.
    pose proof (heights_nonneg (rowCount - 1)%nat ltac:(lia)). lia.
Qed.

Lemma firstBelow_range :
  (firstBelow estimate cache rowCount scrollOffset viewportHeight < rowCount)%nat.
Proof.
  unfold firstBelow.
  destruct (smallest _ rowCount) as [i|] eqn:Hs; simpl; [|lia].
  by apply smallest_Some in Hs as (? & _).
Qed.

Lemma firstVisible_le_firstBelow :
  (firstVisible estimate cache rowCount scrollOffset
   ≤ firstBelow estimate cache rowCount scrollOffset viewportHeight)%nat.
Proof.
  pose proof firstVisible_range as Hv. unfold firstBelow.
  destruct (smallest _ rowCount) as [e|] eqn:He; simpl; [|lia].
  apply smallest_Some in He as (He & Hpe & _).
  apply Z.leb_le in Hpe.
  destruct e as [|e]; [simpl in Hpe; lia|].
  clear Hv. unfold firstVisible.
  destruct (smallest _ rowCount) as [i|] eqn:Hs; simpl.
  - apply smallest_Some in Hs as (_ & _ & Hmin).
    destruct (decide (i ≤ e)%nat) as [|Hgt]; [lia|].
    specialize (Hmin e ltac:(lia)). simpl in *. lia.
  - pose proof (smallest_None _ _ Hs e ltac:(lia)) as Hnone.
    simpl in *. lia.
Qed.

Lemma firstBelow_offset :
  Z.min (scrollOffset + viewportHeight) (totalHeight estimate cache rowCount)
  ≤ offset estimate cache
      (S (firstBelow estimate cache rowCount scrollOffset viewportHeight)).
Proof.
  unfold firstBelow.
  destruct (smallest _ rowCount) as [e|] eqn:He; simpl default.
  - apply smallest_Some in He as (He & Hpe & _). apply Z.leb_le in Hpe.
    etrans; [apply Z.le_min_l|]. etrans; [apply Hpe|].
    apply (offset_mono _ _ rowCount); [done|lia|lia].
  - replace (S _) with rowCount by lia.
    apply Z.le_min_r.
Qed.

Lemma past_the_end_firstVisible :
  totalHeight estimate cache rowCount < scrollOffset →
  firstVisible estimate cache rowCount scrollOffset = (rowCount - 1)%nat
  ∧ firstBelow estimate cache rowCount scrollOffset viewportHeight
    = (rowCount - 1)%nat.
Proof.
  intros Hpast.
  assert (∀ i, (i ≤ rowCount)%nat → offset estimate cache i < scrollOffset)
    as Hall.
  { intros i Hi. eapply Z.le_lt_trans; [|apply Hpast].
    by apply (offset_mono _ _ rowCount). }
  unfold firstVisible, firstBelow. split.
  - destruct (smallest _ rowCount) as [i|] eqn:Hs; [|done].
    apply smallest_Some in Hs as (Hi & Hp & _).
    apply Z.ltb_lt in Hp. specialize (Hall (S i) ltac:(lia)).
    simpl in Hall. lia.
  - destruct (smallest _ rowCount) as [i|] eqn:Hs; [|done].
    apply smallest_Some in Hs as (Hi & Hp & _).
    apply Z.leb_le in Hp. specialize (Hall i ltac:(lia)). lia.
Qed.

Lemma visibleWindow_rows (overscanCount : nat) :
  visibleWindow estimate cache rowCount scrollOffset viewportHeight overscanCount
  = seq (startRowIndex estimate cache rowCount scrollOffset overscanCount)
      (S (endRowIndex estimate cache rowCount scrollOffset viewportHeight
            overscanCount)
       - startRowIndex estimate cache rowCount scrollOffset overscanCount).
Proof. unfold visibleWindow. destruct rowCount; [lia|done]. Qed.

(** C3, as amended: for at least one row, non-negative heights, a positive
    viewport height and a scroll offset that is not negative, the window
    [startRowIndex .. endRowIndex] is a non-empty range of rows; for a scroll
    offset up to the total height, its offsets run from at most [scrollOffset]
    to at least [scrollOffset + viewportHeight] or the total height, whichever
    comes first, so the window covers all of the viewport that lies over
    content; a scroll offset beyond the total height gives the last row with
    its overscan rows before it. *)
Theorem window_covers_content (overscanCount : nat) :
  let s := startRowIndex estimate cache rowCount scrollOffset overscanCount in
  let e := endRowIndex estimate cache rowCount scrollOffset viewportHeight
             overscanCount in
  (s ≤ e < rowCount)%nat
  ∧ (∀ i, i ∈ visibleWindow estimate cache rowCount scrollOffset viewportHeight
              overscanCount ↔ (s ≤ i ≤ e)%nat)
  ∧ (scrollOffset ≤ totalHeight estimate cache rowCount →
     offset estimate cache s ≤ scrollOffset
     ∧ Z.min (scrollOffset + viewportHeight) (totalHeight estimate cache rowCount)
       ≤ offset estimate cache e + height estimate cache e)
  ∧ (totalHeight estimate cache rowCount < scrollOffset →
     s = (rowCount - 1 - overscanCount)%nat ∧ e = (rowCount - 1)%nat).
Proof.
  intros s e.
  pose proof firstVisible_range as Hv.
  pose proof firstBelow_range as Hb.
  pose proof firstVisible_le_firstBelow as Hvb.
  assert (s ≤ e < rowCount)%nat as Hse
    by (unfold s, e, startRowIndex, endRowIndex; lia).
  split_and!; [lia|lia| | |].
  - intros i. rewrite visibleWindow_rows, elem_of_seq. fold s e. lia.
  - intros Hin. split.
    + etrans; [|by apply firstVisible_offset].
      apply (offset_mono _ _ rowCount); [done| |lia].
      unfold s, startRowIndex. lia.
    + etrans; [apply firstBelow_offset|].
      change (offset estimate cache e + height estimate cache e)
        with (offset estimate cache (S e)).
      apply (offset_mono _ _ rowCount); [done| |lia].
      unfold e, endRowIndex. lia.
  - intros Hpast. destruct (past_the_end_firstVisible Hpast) as [Hfv Hfb].
    unfold s, e, startRowIndex, endRowIndex. rewrite Hfv, Hfb. lia.
Qed.

End Window.

Section WindowExamples.
Import SizeCache Engine.

Lemma window_covers_content_witness :
  startRowIndex 300 {[ 7%nat := 340 ]} 10 1000 3 = 0%nat
  ∧ endRowIndex 300 {[ 7%nat := 340 ]} 10 1000 800 3 = 9%nat
  ∧ offset 300 {[ 7%nat := 340 ]} 0 ≤ 1000
  ∧ Z.min (1000 + 800) (totalHeight 300 {[ 7%nat := 340 ]} 10)
    ≤ offset 300 {[ 7%nat := 340 ]} 9 + height 300 {[ 7%nat := 340 ]} 9.
Proof.
  assert (∀ i, (i < 10)%nat → 0 ≤ height 300 {[ 7%nat := 340 ]} i) as Hheights.
  { intros i _. unfold height, get.
    destruct (decide (i = 7%nat)) as [->|Hne].
    - by rewrite lookup_singleton_eq.
    - by rewrite lookup_singleton_ne. }
  pose proof (window_covers_content 300 {[ 7%nat := 340 ]} 10 1000 800
                ltac:(lia) Hheights ltac:(lia) ltac:(lia) 3)
    as (_ & _ & Hcover & _).
  split; [reflexivity|]. split; [reflexivity|].
  apply Hcover. vm_compute. discriminate.
Defined.

(** C3, as stated, fails where the viewport reaches below the content: one
    row of height 300 under a viewport of height 800 has the window [0 .. 0],
    whose offsets end at 300 and not at 800; and ten rows scrolled to their
    total height 3000 have a window that ends at 3000 and not at 3800. *)
Lemma window_coverage_counterexample :
  (0 ≤ 0 ≤ totalHeight 300 ∅ 1
   ∧ endRowIndex 300 ∅ 1 0 800 3 = 0%nat
   ∧ offset 300 ∅ 0 + height 300 ∅ 0 < 0 + 800)
  ∧ (0 ≤ 3000 ≤ totalHeight 300 ∅ 10
     ∧ endRowIndex 300 ∅ 10 3000 800 3 = 9%nat
     ∧ offset 300 ∅ 9 + height 300 ∅ 9 < 3000 + 800).
Proof. vm_compute. repeat split; discriminate. Qed.

End WindowExamples.

(** ** Claims on invalidation and measurement *)

Section Invalidation.
Import Layout SizeCache Engine WodList.

Lemma effect_new_deps (st : State) (c : Z) (virtualizerChanged : bool) :
  effectDeps st ≠ Some c →
  effect c virtualizerChanged st = mkState ∅ (Some c).
Proof. intros Hdeps. unfold effect. by rewrite bool_decide_eq_false_2. Qed.

(** C2, as amended: when a render finds a column count that differs from the
    one recorded by the previous run of the effect, the effect that follows
    this render empties the size cache. From then on every row index reads
    back the estimate and counts as unmeasured, every later render computes
    its offsets and total height from estimates alone, and this lasts, row by
    row, until a row is measured again: a measurement of row [i] changes the
    reading of row [i] only, and a render pass at the same column count keeps
    the cache. *)
Theorem columnCount_change_invalidates (env : Env) (virtualizerChanged : bool)
    (st : State) (props : Props) :
  effectDeps st ≠ Some (getColumnCount (innerWidth env)) →
  itemSizeCache (renderPass env virtualizerChanged st props).2 = ∅
  ∧ effectDeps (renderPass env virtualizerChanged st props).2
    = Some (getColumnCount (innerWidth env))
  ∧ (∀ i, get estimateSize
            (itemSizeCache (renderPass env virtualizerChanged st props).2) i
          = estimateSize
          ∧ measured
              (itemSizeCache (renderPass env virtualizerChanged st props).2) i
            = false)
  ∧ (∀ n, offset estimateSize
            (itemSizeCache (renderPass env virtualizerChanged st props).2) n
          = estimateSize * Z.of_nat n)
  ∧ (∀ i h j,
       get estimateSize
         (itemSizeCache
            (onMeasure i h (renderPass env virtualizerChanged st props).2)) j
       = if decide (j = i) then measureElement h else estimateSize)
  ∧ (∀ env' props',
       getColumnCount (innerWidth env') = getColumnCount (innerWidth env) →
       (renderPass env' false
          (renderPass env virtualizerChanged st props).2 props').2
       = (renderPass env virtualizerChanged st props).2).
Proof.
  intros Hdeps. unfold renderPass. simpl.
  rewrite (effect_new_deps _ _ _ Hdeps). simpl.
  split_and!; [done|done| | | |].
  - intros i. split; [apply get_empty|].
    unfold measured. rewrite lookup_empty.
    apply bool_decide_eq_false_2. by intros [? ?].
  - apply offset_empty.
  - intros i h j. case_decide as Hj.
    + subst j. apply get_set_eq.
    + rewrite get_set_ne by done. apply get_empty.
  - intros env' props' ->. by apply effect_same_deps.
Qed.

Lemma columnCount_change_invalidates_witness :
  effectDeps measured_at_two_columns ≠ Some (getColumnCount (innerWidth narrow_env))
  ∧ itemSizeCache (renderPass narrow_env false measured_at_two_columns three_wods).2
    = ∅.
Proof.
  assert (effectDeps measured_at_two_columns
          ≠ Some (getColumnCount (innerWidth narrow_env))) as Hdeps
    by discriminate.
  split; [exact Hdeps|].
  apply (columnCount_change_invalidates narrow_env false
           measured_at_two_columns three_wods Hdeps).
Defined.

(** C2, as stated, fails for the render that first sees the new column count:
    its effect runs after it. With row 0 measured at 340 under two columns and
    the window narrowed to one column, that render sizes the three new rows
    at 340 + 300 + 300 and places row 1 at 340, where estimates alone give
    900 and 300. *)
Lemma stale_height_counterexample :
  effectDeps measured_at_two_columns = Some 2
  ∧ getColumnCount (innerWidth narrow_env) = 1
  ∧ viewHeight (renderPass narrow_env false measured_at_two_columns three_wods).1
    = Some 940
  ∧ translateY <$> viewRows
      (renderPass narrow_env false measured_at_two_columns three_wods).1
    = [0; 340; 640]
  ∧ viewHeight
      (render narrow_env
         (renderPass narrow_env false measured_at_two_columns three_wods).2
         three_wods)
    = Some 900.
Proof. vm_compute. repeat split. Qed.

(** C7, as amended: a measurement of a row whose element reports a height
    that is not negative stores that height plus the 16 units of gap for the
    row, a value of at least 16, so that no height of 0 or less enters the
    cache; the report replaces the row's previous value, and the other rows
    keep theirs. *)
Theorem measurement_stores_positive (rowIndex : nat) (rectHeight : Z)
    (st : State) :
  0 ≤ rectHeight →
  itemSizeCache (onMeasure rowIndex rectHeight st) !! rowIndex
  = Some (rectHeight + 16)
  ∧ 16 ≤ get estimateSize (itemSizeCache (onMeasure rowIndex rectHeight st)) rowIndex
  ∧ (∀ j, j ≠ rowIndex →
       itemSizeCache (onMeasure rowIndex rectHeight st) !! j
       = itemSizeCache st !! j).
Proof.
  intros Hh. unfold onMeasure, measureElement. simpl. split_and!.
  - apply lookup_insert_eq.
  - rewrite get_set_eq. lia.
  - intros j Hj. unfold set. by rewrite lookup_insert_ne.
Qed.

Lemma measurement_stores_positive_witness :
  0 ≤ 324
  ∧ itemSizeCache (onMeasure 7 324 (mkState ∅ (Some 5))) !! 7%nat = Some 340.
Proof.
  split; [lia|].
  apply (measurement_stores_positive 7 324 (mkState ∅ (Some 5))). lia.
Defined.

(** C7, as stated, fails for a report of height 0: the row's previous value,
    here the estimate 300 and then a measured 340, is not retained; the cache
    holds 16 for the row afterwards. *)
Lemma zero_height_report_counterexample :
  get estimateSize (itemSizeCache (mkState ∅ (Some 5))) 7 = 300
  ∧ get estimateSize (itemSizeCache (onMeasure 7 0 (mkState ∅ (Some 5)))) 7 = 16
  ∧ get estimateSize (itemSizeCache (onMeasure 7 324 (mkState ∅ (Some 5)))) 7 = 340
  ∧ get estimateSize
      (itemSizeCache (onMeasure 7 0 (onMeasure 7 324 (mkState ∅ (Some 5))))) 7
    = 16.
Proof. vm_compute. repeat split. Qed.

End Invalidation.

(** * Further properties of the code *)

(** ** Where an item lands in the grid *)

Section Placement.
Import Layout.
Context {A : Type}.
Implicit Types (wods : list A) (c : Z) (i k : nat).

Lemma rowWods_lookup wods c i j :
  1 ≤ c → (j < Z.to_nat c)%nat →
  rowWods wods c (Z.of_nat i) !! j = wods !! (i * Z.to_nat c + j)%nat.
Proof.
  intros Hc Hj. rewrite rowWods_chunk by done.
  by rewrite lookup_take_lt, lookup_drop by done.
Qed.

(** X1: with [c ≥ 1] columns, the item at position [k] of the list is drawn
    in row [k / c], which is one of the rows [0 .. rowCount - 1], at column
    [k mod c] of that row. *)
Theorem item_placement wods c k (w : A) :
  1 ≤ c → wods !! k = Some w →
  0 ≤ Z.of_nat k / c < rowCount wods c
  ∧ rowWods wods c (Z.of_nat k / c) !! Z.to_nat (Z.of_nat k mod c) = Some w.
Proof.
  intros Hc Hk.
  pose proof (lookup_lt_Some _ _ _ Hk) as Hlt.
  pose proof (rowCount_bounds wods c Hc) as [Hrows _].
  pose proof (Z.div_mod (Z.of_nat k) c ltac:(lia)) as Hdm.
  pose proof (Z.mod_pos_bound (Z.of_nat k) c ltac:(lia)) as Hmod.
  assert (0 ≤ Z.of_nat k / c) as Hq by (apply Z.div_pos; lia).
  split.
  - split; [done|]. apply Z.div_lt_upper_bound; lia.
  - rewrite <- (Z2Nat.id (Z.of_nat k / c)) by done.
    rewrite rowWods_lookup by lia. rewrite <- Hk. f_equal. nia.
Qed.

(** X2: for [c ≥ 1] and a row index that is not negative, the row is empty
    exactly when the index is [rowCount] or more: every row the virtualizer
    may ask for has an item, and an index left over from a longer list
    yields an empty row, not a failure. *)
Theorem rowWods_empty_iff wods c i :
  1 ≤ c →
  rowWods wods c (Z.of_nat i) = [] ↔ rowCount wods c ≤ Z.of_nat i.
Proof.
  intros Hc.
  pose proof (rowCount_bounds wods c Hc) as [Hrows Hnonneg].
  pose proof (rowWods_length wods c i Hc) as Hlen.
  split.
  - intros Hnil. rewrite Hnil in Hlen. simpl in Hlen. nia.
  - intros Hi. apply nil_length_inv. nia.
Qed.

(** X3: a wider window never needs more rows: for widths [w1 ≤ w2] the row
    count at [w2] is at most the row count at [w1]. *)
Theorem rowCount_antitone_in_width wods (w1 w2 : Z) :
  w1 ≤ w2 →
  rowCount wods (getColumnCount w2) ≤ rowCount wods (getColumnCount w1).
Proof.
  intros Hw.
  pose proof (getColumnCount_pos w1) as Hc1.
  pose proof (getColumnCount_pos w2) as Hc2.
  assert (getColumnCount w1 ≤ getColumnCount w2) as Hmono.
  { pose proof (getColumnCount_cases w1). pose proof (getColumnCount_cases w2).
    lia. }
  pose proof (rowCount_bounds wods _ Hc1) as [Hr1 Hn1].
  unfold rowCount at 1. apply Math_ceil_div_least; [lia|]. nia.
Qed.

End Placement.

Section PlacementExamples.
Import Layout.

Lemma item_placement_witness :
  rowWods (seq 0 23) 5 (Z.of_nat 17 / 5) !! Z.to_nat (Z.of_nat 17 mod 5)
  = Some 17%nat.
Proof. apply (item_placement (seq 0 23) 5 17 17%nat); [lia|reflexivity]. Defined.

Lemma rowWods_empty_iff_witness :
  rowWods (seq 0 23) 5 (Z.of_nat 5) = [] ∧ rowCount (seq 0 23) 5 ≤ Z.of_nat 5.
Proof.
  split; [|vm_compute; discriminate].
  apply (rowWods_empty_iff (seq 0 23) 5 5); [lia|vm_compute; discriminate].
Defined.

Lemma rowCount_antitone_in_width_witness :
  rowCount (seq 0 23) (getColumnCount 1400) ≤ rowCount (seq 0 23) (getColumnCount 800).
Proof. apply (rowCount_antitone_in_width (seq 0 23) 800 1400). lia. Defined.

End PlacementExamples.

(** ** The dashboard's list of records *)

Section SortFacts.
Import Dashboard.
Context {A : Type} (compareFn : A → A → Z).

Lemma insert_Permutation (x : A) (l : list A) : insert compareFn x l ≡ₚ x :: l.
Proof.
  induction l as [|y l IH]; simpl; [done|].
  destruct (compareFn x y <=? 0); [done|].
  rewrite IH. apply Permutation_swap.
Qed.

Lemma sort_Permutation (l : list A) : sort compareFn l ≡ₚ l.
Proof.
  induction l as [|x l IH]; simpl; [done|].
  by rewrite insert_Permutation, IH.
Qed.

End SortFacts.

Section DashboardFacts.
Import Search Dashboard.
Variable getTime : jsstring → Z.
Variable toLowerCase : jsstring → jsstring.

Lemma insert_latestFirst (x : Wod) (l : list Wod) :
  StronglySorted (latestFirst getTime) l →
  StronglySorted (latestFirst getTime) (insert (byDateDescending getTime) x l).
Proof.
  induction 1 as [|y l Hl IH Hy]; simpl.
  - repeat constructor.
  - unfold byDateDescending at 1.
    destruct (Z.leb_spec (getTime (date y) - getTime (date x)) 0) as [Hle|Hgt].
    + constructor; [by constructor|].
      constructor; [unfold latestFirst; lia|].
      eapply Forall_impl; [exact Hy|]. unfold latestFirst. intros z Hz. lia.
    + constructor; [done|].
      rewrite insert_Permutation. constructor; [unfold latestFirst; lia|done].
Qed.

Lemma sort_latestFirst (l : list Wod) :
  StronglySorted (latestFirst getTime) (sort (byDateDescending getTime) l).
Proof.
  induction l as [|x l IH]; simpl; [constructor|by apply insert_latestFirst].
Qed.

Lemma insert_same_time (t : Z) (x : Wod) (l : list Wod) :
  filter (λ w, getTime (date w) = t) (insert (byDateDescending getTime) x l)
  = filter (λ w, getTime (date w) = t) (x :: l).
Proof.
  induction l as [|y l IH]; simpl; [done|].
  unfold byDateDescending at 1.
  destruct (Z.leb_spec (getTime (date y) - getTime (date x)) 0) as [Hle|Hgt];
    [done|].
  rewrite !filter_cons in *. rewrite IH.
  repeat case_decide; try done; lia.
Qed.

Lemma sort_same_time (t : Z) (l : list Wod) :
  filter (λ w, getTime (date w) = t) (sort (byDateDescending getTime) l)
  = filter (λ w, getTime (date w) = t) l.
Proof.
  induction l as [|x l IH]; simpl; [done|].
  rewrite insert_same_time, !filter_cons, IH. done.
Qed.

Lemma StronglySorted_sublist {B : Type} (R : relation B) (l k : list B) :
  l `sublist_of` k → StronglySorted R k → StronglySorted R l.
Proof.
  induction 1 as [|x l k Hsub IH|x l k Hsub IH]; [done| |].
  - inversion_clear 1 as [|? ? Hk Hx]. constructor; [by apply IH|].
    rewrite Forall_forall in *. intros y Hy. apply Hx.
    by eapply elem_of_sublist.
  - inversion_clear 1. by apply IH.
Qed.

Lemma filteredWods_sublist (wods : list Wod) (term : jsstring) :
  filteredWods toLowerCase wods term `sublist_of` wods.
Proof.
  unfold filteredWods. destruct (negb _); [done|].
  induction wods as [|w wods IH]; simpl; [done|].
  destruct (includes _ _); by constructor.
Qed.

(** X4: the records of the dashboard are the entries of the data file,
    each once, ordered by date with the latest first; entries of one and the
    same date keep the order they have in the file. *)
Theorem wods_sorted_by_date (entries : list (jsstring * jsstring)) :
  wods getTime entries ≡ₚ wodOfEntry <$> entries
  ∧ StronglySorted (latestFirst getTime) (wods getTime entries)
  ∧ (∀ t, filter (λ w, getTime (date w) = t) (wods getTime entries)
          = filter (λ w, getTime (date w) = t) (wodOfEntry <$> entries)).
Proof.
  unfold wods. split_and!.
  - apply sort_Permutation.
  - apply sort_latestFirst.
  - intros t. apply sort_same_time.
Qed.

(** X5: whatever the search term, the list handed to the list view is in
    the order of the dashboard's records, latest date first, and holds no
    record that the dashboard does not have. *)
Theorem filtered_list_latest_first (entries : list (jsstring * jsstring))
    (term : jsstring) :
  WodList.wods (listProps (render getTime toLowerCase entries term))
    `sublist_of` wods getTime entries
  ∧ StronglySorted (latestFirst getTime)
      (WodList.wods (listProps (render getTime toLowerCase entries term)))
  ∧ WodList.searchTerm (listProps (render getTime toLowerCase entries term))
    = term.
Proof.
  simpl. pose proof (filteredWods_sublist (wods getTime entries) term) as Hsub.
  split_and!; [done| |done].
  eapply StronglySorted_sublist; [exact Hsub|apply sort_latestFirst].
Qed.

(** X6: the counter above the list. Without a search term it reads "n
    workouts available" with [n] the number of entries; with a term it reads
    "Showing m of n" where [m] is the length of the list shown and [m ≤ n];
    a term of white space only still reads "Showing n of n". *)
Theorem counter_spec (entries : list (jsstring * jsstring)) (term : jsstring) :
  (term = [] →
   counter (render getTime toLowerCase entries term) = Available (length entries))
  ∧ (term ≠ [] →
     counter (render getTime toLowerCase entries term)
     = Showing
         (length (WodList.wods (listProps (render getTime toLowerCase entries term))))
         (length entries)
     ∧ (length (WodList.wods (listProps (render getTime toLowerCase entries term)))
        ≤ length entries)%nat)
  ∧ (term ≠ [] → blank term →
     counter (render getTime toLowerCase entries term)
     = Showing (length entries) (length entries)).
Proof.
  assert (length (wods getTime entries) = length entries) as Hlen.
  { unfold wods. by rewrite sort_Permutation, length_fmap. }
  unfold render. simpl. rewrite Hlen. split_and!.
  - by intros ->.
  - intros Hterm. destruct term; [done|]. simpl. split; [done|].
    rewrite <- Hlen. apply sublist_length, filteredWods_sublist.
  - intros Hterm Hblank. destruct term as [|c term]; [done|]. simpl truthy.
    cbv iota. unfold filteredWods.
    apply truthy_trim in Hblank. rewrite Hblank. simpl. by rewrite Hlen.
Qed.

End DashboardFacts.

(** ** Keys and rows of the rendered list *)

Section Keys.
Import Search Layout WodList.

Lemma rowWods_sublist {A : Type} (wods : list A) (c : Z) (i : nat) :
  1 ≤ c → rowWods wods c (Z.of_nat i) `sublist_of` wods.
Proof.
  intros Hc. rewrite rowWods_chunk by done.
  etrans; [apply sublist_take|apply sublist_drop].
Qed.

Lemma key_card (term : jsstring) (l : list Wod) :
  key <$> (card term <$> l) = date <$> l.
Proof. rewrite <- list_fmap_compose. by apply list_fmap_ext. Qed.

(** X7: when the keys of the data file are pairwise distinct, so are the
    dates of the records handed to the list view, for every search term. *)
Theorem list_dates_unique (getTime : jsstring → Z)
    (toLowerCase : jsstring → jsstring)
    (entries : list (jsstring * jsstring)) (term : jsstring) :
  NoDup entries.*1 →
  NoDup (date <$> wods (Dashboard.listProps
                          (Dashboard.render getTime toLowerCase entries term))).
Proof.
  intros Hkeys. simpl.
  eapply sublist_NoDup; [|apply fmap_sublist, filteredWods_sublist].
  unfold Dashboard.wods. rewrite sort_Permutation.
  by rewrite <- list_fmap_compose.
Qed.

Lemma list_dates_unique_witness :
  NoDup [([49%N], [97%N]); ([50%N], [98%N])].*1
  ∧ NoDup (date <$> wods (Dashboard.listProps
             (Dashboard.render (λ _, 0) asciiLower
                [([49%N], [97%N]); ([50%N], [98%N])] []))).
Proof.
  assert (NoDup [([49%N], [97%N]); ([50%N], [98%N])].*1) as Hkeys
    by compute_done.
  split; [exact Hkeys|].
  by apply (list_dates_unique (λ _, 0) asciiLower).
Defined.

(** X8: the cards carry the date of their record as key. When the dates of
    the list are pairwise distinct, the keys of the cards of every row are
    pairwise distinct, and so are the keys of the cards of the plain grid. *)
Theorem card_keys_unique (props : Props) (c : Z) (i : nat) :
  1 ≤ c → NoDup (date <$> wods props) →
  NoDup (key <$> cardsOfRow props c (Z.of_nat i))
  ∧ (∀ cards, renderPlain props = Grid cards → NoDup (key <$> cards)).
Proof.
  intros Hc Hdates. split.
  - unfold cardsOfRow. rewrite key_card.
    eapply sublist_NoDup; [done|by apply fmap_sublist, rowWods_sublist].
  - unfold renderPlain. destruct (_ =? _)%nat; [done|].
    intros cards [= <-]. by rewrite key_card.
Qed.

Lemma card_keys_unique_witness :
  NoDup (key <$> cardsOfRow three_wods 2 (Z.of_nat 0)).
Proof.
  assert (NoDup (date <$> wods three_wods)) as Hdates by compute_done.
  exact (proj1 (card_keys_unique three_wods 2 0 ltac:(lia) Hdates)).
Defined.

End Keys.

Section RenderedRows.
Import Layout Engine WodList.

Lemma concat_chunks_from {A : Type} (l : list A) (k s n : nat) :
  concat ((λ i, take k (drop (i * k) l)) <$> seq s n)
  = take (n * k) (drop (s * k) l).
Proof.
  induction n as [|n IH]; [done|].
  rewrite seq_S, fmap_app, concat_app, IH. simpl.
  rewrite app_nil_r.
  replace ((s + n) * k)%nat with (s * k + n * k)%nat by lia.
  rewrite <- drop_drop, take_take_drop. f_equal. lia.
Qed.

Lemma cardsOfRow_chunk (props : Props) (c : Z) (i : nat) :
  1 ≤ c →
  cardsOfRow props c (Z.of_nat i)
  = take (Z.to_nat c) (drop (i * Z.to_nat c) (card (searchTerm props) <$> wods props)).
Proof.
  intros Hc. unfold cardsOfRow.
  by rewrite rowWods_chunk, fmap_take, fmap_drop.
Qed.

Lemma viewRows_render (env : Env) (st : State) (props : Props) :
  wods props ≠ [] →
  viewRows (render env st props)
  = (λ i, mkRow i (offset estimateSize (itemSizeCache st) i)
            (cardsOfRow props (getColumnCount (innerWidth env)) (Z.of_nat i)))
      <$> visibleWindow estimateSize (itemSizeCache st)
            (Z.to_nat (rowCount (wods props) (getColumnCount (innerWidth env))))
            (scrollOffset env) (viewportHeight env) overscan.
Proof.
  intros Hne. unfold render.
  destruct (Nat.eqb_spec (length (wods props)) 0) as [Hlen|_];
    [by apply nil_length_inv in Hlen|].
  simpl. unfold getVirtualItems. by rewrite <- list_fmap_compose.
Qed.

(** X9: for a list that is not empty, whatever the cache, the scroll offset
    and the viewport height are, the rows that the list view renders have
    consecutive indices below [rowCount]; each of them holds at least one
    card and at most [columnCount]; and their cards, taken together in row
    order, are one contiguous run of the cards of the whole list. *)
Theorem rendered_rows (env : Env) (st : State) (props : Props) :
  wods props ≠ [] →
  ∃ first count : nat,
    dataIndex <$> viewRows (render env st props) = seq first count
    ∧ (count = 0%nat
       ∨ Z.of_nat (first + count)
         ≤ rowCount (wods props) (getColumnCount (innerWidth env)))
    ∧ Forall (λ row, 1 ≤ Z.of_nat (length (rowCards row))
                        ≤ getColumnCount (innerWidth env))
        (viewRows (render env st props))
    ∧ concat (rowCards <$> viewRows (render env st props))
      = take (count * Z.to_nat (getColumnCount (innerWidth env)))
          (drop (first * Z.to_nat (getColumnCount (innerWidth env)))
             (card (searchTerm props) <$> wods props)).
Proof.
  intros Hne. rewrite viewRows_render by done.
  set (c := getColumnCount (innerWidth env)).
  pose proof (getColumnCount_pos (innerWidth env)) as Hc. fold c in Hc.
  pose proof (rowCount_bounds (wods props) c Hc) as [Hrows Hnonneg].
  assert (0 < rowCount (wods props) c) as Hpos.
  { destruct (wods props); [done|]. simpl length in Hrows. nia. }
  set (n := Z.to_nat (rowCount (wods props) c)).
  assert (n = S (n - 1)) as Hn by lia.
  set (s := startRowIndex estimateSize (itemSizeCache st) n (scrollOffset env)
              overscan).
  set (e := endRowIndex estimateSize (itemSizeCache st) n (scrollOffset env)
              (viewportHeight env) overscan).
  assert (visibleWindow estimateSize (itemSizeCache st) n (scrollOffset env)
            (viewportHeight env) overscan = seq s (S e - s)) as ->.
  { unfold visibleWindow. by rewrite Hn at 1. }
  assert (e < n)%nat as He by (unfold e, endRowIndex; lia).
  exists s, (S e - s)%nat. split_and!.
  - rewrite <- list_fmap_compose. simpl. apply list_fmap_id.
  - lia.
  - rewrite Forall_fmap, Forall_forall. intros i Hi.
    apply elem_of_seq in Hi. simpl.
    assert (Z.of_nat (length (cardsOfRow props c (Z.of_nat i)))
            = Z.of_nat (length (rowWods (wods props) c (Z.of_nat i)))) as ->
      by (unfold cardsOfRow; by rewrite length_fmap).
    rewrite rowWods_length by done. nia.
  - rewrite <- list_fmap_compose.
    rewrite <- concat_chunks_from. f_equal.
    apply list_fmap_ext. intros _ i _. simpl. by apply cardsOfRow_chunk.
Qed.

Lemma rendered_rows_witness :
  wods three_wods ≠ []
  ∧ ∃ first count : nat,
      dataIndex <$> viewRows (render narrow_env measured_at_two_columns three_wods)
      = seq first count
      ∧ (count = 0%nat
         ∨ Z.of_nat (first + count)
           ≤ rowCount (wods three_wods) (getColumnCount (innerWidth narrow_env)))
      ∧ Forall (λ row, 1 ≤ Z.of_nat (length (rowCards row))
                          ≤ getColumnCount (innerWidth narrow_env))
          (viewRows (render narrow_env measured_at_two_columns three_wods))
      ∧ concat (rowCards <$> viewRows
                  (render narrow_env measured_at_two_columns three_wods))
        = take (count * Z.to_nat (getColumnCount (innerWidth narrow_env)))
            (drop (first * Z.to_nat (getColumnCount (innerWidth narrow_env)))
               (card (searchTerm three_wods) <$> wods three_wods)).
Proof.
  split; [discriminate|].
  apply (rendered_rows narrow_env measured_at_two_columns three_wods).
  discriminate.
Defined.

End RenderedRows.

(** ** The cache over a run of events *)

Section SessionFacts.
Import Layout SizeCache WodList Session.

Lemma lastMeasured_snoc (i : nat) (events : list Event) (ev : Event) :
  lastMeasured i (events ++ [ev])
  = match ev with
    | Measured j h =>
        if decide (j = i) then Some (measureElement h)
        else lastMeasured i events
    | Pass _ _ _ => lastMeasured i events
    end.
Proof. unfold lastMeasured. by rewrite foldl_app. Qed.

Lemma run_keeps_columns (c : Z) (cache : gmap nat Z) (events : list Event) :
  cache = ∅ →
  Forall (keepsColumns c) events →
  effectDeps (run (mkState cache (Some c)) events) = Some c
  ∧ ∀ i, itemSizeCache (run (mkState cache (Some c)) events) !! i
         = lastMeasured i events.
Proof.
  intros -> Hevents. induction events as [|ev events IH] using rev_ind.
  - split; [done|]. intros i. apply lookup_empty.
  - rewrite Forall_app, Forall_singleton in Hevents.
    destruct Hevents as [Hevents Hev].
    destruct (IH Hevents) as [Hdeps Hcache].
    unfold run in *. rewrite foldl_app. simpl.
    destruct ev as [env changed props|j h]; simpl in *.
    + destruct Hev as [-> ->].
      rewrite effect_same_deps by done.
      split; [done|]. intros i. by rewrite lastMeasured_snoc.
    + split; [done|]. intros i. rewrite lastMeasured_snoc.
      unfold set. case_decide as Hj.
      * subst j. apply lookup_insert_eq.
      * rewrite lookup_insert_ne by done. apply Hcache.
Qed.

(** X10: after a render pass that finds a new column count, and through any
    later measurements and render passes that keep that column count, the
    cache holds for every row the latest measurement of the row taken since
    that pass, and no height for a row not measured since: what was cached
    before is gone, and the render passes in between change nothing. *)
Theorem cache_holds_latest_measurements (st : State) (env : Env)
    (virtualizerChanged : bool) (props : Props) (events : list Event) :
  effectDeps st ≠ Some (getColumnCount (innerWidth env)) →
  Forall (keepsColumns (getColumnCount (innerWidth env))) events →
  effectDeps (run st (Pass env virtualizerChanged props :: events))
  = Some (getColumnCount (innerWidth env))
  ∧ ∀ i, itemSizeCache (run st (Pass env virtualizerChanged props :: events)) !! i
         = lastMeasured i events.
Proof.
  intros Hdeps Hevents. unfold run. simpl.
  rewrite (effect_new_deps _ _ _ Hdeps).
  by apply run_keeps_columns.
Qed.

Lemma cache_holds_latest_measurements_witness :
  itemSizeCache
    (run measured_at_two_columns
       [Pass narrow_env false three_wods; Measured 1 324;
        Pass narrow_env false three_wods; Measured 1 330]) !! 1%nat
  = Some 346
  ∧ itemSizeCache
      (run measured_at_two_columns
         [Pass narrow_env false three_wods; Measured 1 324;
          Pass narrow_env false three_wods; Measured 1 330]) !! 0%nat
    = None.
Proof.
  assert (effectDeps measured_at_two_columns
          ≠ Some (getColumnCount (innerWidth narrow_env))) as Hdeps
    by discriminate.
  assert (Forall (keepsColumns (getColumnCount (innerWidth narrow_env)))
            [Measured 1 324; Pass narrow_env false three_wods; Measured 1 330])
    as Hevents by (repeat constructor).
  destruct (cache_holds_latest_measurements measured_at_two_columns narrow_env
              false three_wods _ Hdeps Hevents) as [_ Hcache].
  split; rewrite Hcache; reflexivity.
Defined.

End SessionFacts.

(** ** The text of a card *)

Section FormatContent.
Import WodCard.
Local Open Scope N_scope.

Lemma formatContent_cons (d : N) (text : jsstring) :
  formatContent (d :: text)
  = (if d =? 9792 then [9792; 65038]
     else if d =? 9794 then [9794; 65038] else [d]) ++ formatContent text.
Proof.
  unfold formatContent, replaceAll. rewrite bind_cons.
  destruct (N.eqb_spec d 9792) as [->|Hf].
  - by rewrite bind_app.
  - rewrite bind_app. f_equal. simpl. rewrite app_nil_r.
    by destruct (N.eqb_spec d 9794).
Qed.

(** X11: [formatContent] puts the text variation selector U+FE0E behind
    every female and male sign and changes nothing else: in its result each
    of the two signs is directly followed by U+FE0E; the result without its
    U+FE0E units is the text without its U+FE0E units; and a text that holds
    neither sign is returned as it is. *)
Theorem formatContent_spec (text : jsstring) :
  (∀ (i : nat) c, formatContent text !! i = Some c → c = 9792 ∨ c = 9794 →
                  formatContent text !! S i = Some 65038)
  ∧ filter (λ c, c ≠ 65038) (formatContent text) = filter (λ c, c ≠ 65038) text
  ∧ (9792 ∉ text → 9794 ∉ text → formatContent text = text).
Proof.
  split_and!.
  - induction text as [|d text IH]; intros i c; [done|].
    rewrite formatContent_cons.
    destruct (N.eqb_spec d 9792) as [->|Hf];
      [|destruct (N.eqb_spec d 9794) as [->|Hm]].
    + destruct i as [|[|i]]; simpl; [done|intros [= <-]; lia|apply IH].
    + destruct i as [|[|i]]; simpl; [done|intros [= <-]; lia|apply IH].
    + destruct i as [|i]; simpl; [intros [= <-]; lia|apply IH].
  - unfold jsstring in *. induction text as [|d text IH]; [done|].
    rewrite formatContent_cons.
    destruct (N.eqb_spec d 9792) as [->|Hf];
      [|destruct (N.eqb_spec d 9794) as [->|Hm]];
      rewrite filter_app, IH; cbv iota; rewrite !filter_cons, ?filter_nil;
      repeat case_decide; done.
  - induction text as [|d text IH]; [done|].
    rewrite !not_elem_of_cons. intros [Hf ?] [Hm ?].
    rewrite formatContent_cons, IH by done.
    destruct (N.eqb_spec d 9792); [done|]. by destruct (N.eqb_spec d 9794).
Qed.

End FormatContent.

(** ** The pattern of the highlighter *)

Section Escape.
Import WodCard.
Local Open Scope N_scope.

Lemma escaped_syntax (c : N) : escaped c = isSyntaxCharacter c.
Proof.
  unfold escaped, isSyntaxCharacter.
  destruct (N.eqb_spec c 46) as [->|?]; [done|].
  destruct (N.eqb_spec c 42) as [->|?]; [done|].
  destruct (N.eqb_spec c 43) as [->|?]; [done|].
  destruct (N.eqb_spec c 63) as [->|?]; [done|].
  destruct (N.eqb_spec c 94) as [->|?]; [done|].
  destruct (N.eqb_spec c 36) as [->|?]; [done|].
  destruct (N.eqb_spec c 123) as [->|?]; [done|].
  destruct (N.eqb_spec c 125) as [->|?]; [done|].
  destruct (N.eqb_spec c 40) as [->|?]; [done|].
  destruct (N.eqb_spec c 41) as [->|?]; [done|].
  destruct (N.eqb_spec c 124) as [->|?]; [done|].
  destruct (N.eqb_spec c 91) as [->|?]; [done|].
  destruct (N.eqb_spec c 93) as [->|?]; [done|].
  by destruct (N.eqb_spec c 92) as [->|?].
Qed.

Lemma literalOf_escape (search : jsstring) : literalOf (escape search) = Some search.
Proof.
  induction search as [|d search IH]; [done|].
  unfold escape in *. rewrite bind_cons.
  destruct (escaped d) eqn:Hd.
  - simpl. rewrite <- escaped_syntax, Hd, IH. done.
  - simpl. rewrite <- escaped_syntax, Hd, IH.
    destruct (N.eqb_spec d 92) as [->|?]; done.
Qed.

Lemma compile_escape (search : jsstring) :
  compile ([40] ++ escape search ++ [41]) = Some search.
Proof.
  simpl. rewrite reverse_snoc, reverse_involutive. apply literalOf_escape.
Qed.

(** X12: the pattern built for a search term, the escaped term in one pair
    of parentheses, is a capture group around a literal, and the literal is
    the search term itself: no code unit of the term acts as an operator of
    the pattern language, and the pattern is never rejected. A term without
    syntax characters is escaped to itself. *)
Theorem escaped_pattern_is_literal (search : jsstring) :
  compile ([40] ++ escape search ++ [41]) = Some search
  ∧ literalOf (escape search) = Some search
  ∧ (Forall (λ c, isSyntaxCharacter c = false) search → escape search = search).
Proof.
  split_and!; [apply compile_escape|apply literalOf_escape|].
  induction 1 as [|c search Hc _ IH]; [done|].
  unfold escape in *. rewrite bind_cons, IH, escaped_syntax, Hc. done.
Qed.

End Escape.

(** ** Highlighting *)

Section HighlightFacts.
Import Search WodCard.
Variable canonicalize : N → N.
Implicit Types (s m literal cur rest piece : list N).

Lemma matchesAt_spec s literal :
  matchesAt canonicalize s literal = true
  ↔ (length literal ≤ length s)%nat
    ∧ foldEq canonicalize (take (length literal) s) literal.
Proof.
  unfold foldEq. revert s.
  induction literal as [|b literal IH]; intros s; simpl.
  - split; [split; [lia|done]|done].
  - destruct s as [|a s]; simpl.
    + split; [done|]. intros [? _]. lia.
    + rewrite andb_true_iff, N.eqb_eq, IH. split.
      * intros [Hab [? Heq]]. split; [lia|]. f_equal; [done|exact Heq].
      * intros [? [= Hab Heq]]. split_and!; [done|lia|exact Heq].
Qed.

Lemma matchesAt_app s rest literal :
  matchesAt canonicalize s literal = true →
  matchesAt canonicalize (s ++ rest) literal = true.
Proof.
  rewrite !matchesAt_spec. intros [Hlen Heq]. split.
  - rewrite length_app. lia.
  - by rewrite take_app_le.
Qed.

Lemma matchesAt_take s literal :
  matchesAt canonicalize s literal = true →
  matchesAt canonicalize (take (length literal) s) literal = true
  ∧ length (take (length literal) s) = length literal.
Proof.
  rewrite !matchesAt_spec. intros [Hlen Heq].
  rewrite length_take_le by done. split; [|done].
  split; [done|]. by rewrite take_take, Nat.min_id.
Qed.

Lemma search_None literal s :
  search canonicalize literal s = None
  ↔ ∀ q, matchesAt canonicalize (drop q s) literal = false.
Proof.
  induction s as [|a s IH]; simpl.
  - destruct (matchesAt canonicalize [] literal) eqn:Hm.
    + split; [done|]. intros Hq. specialize (Hq 0%nat). simpl in Hq. congruence.
    + split; [|done]. intros _ q. by rewrite drop_nil.
  - destruct (matchesAt canonicalize (a :: s) literal) eqn:Hm.
    + split; [done|]. intros Hq. specialize (Hq 0%nat). simpl in Hq. congruence.
    + rewrite fmap_None, IH. split.
      * intros Hq [|q]; [done|apply Hq].
      * intros Hq q. apply (Hq (S q)).
Qed.

Lemma search_here literal s :
  matchesAt canonicalize s literal = true →
  search canonicalize literal s = Some 0%nat.
Proof. intros Hm. destruct s; simpl; by rewrite Hm. Qed.

Lemma search_None_occurs literal s :
  search canonicalize literal s = None ↔ ¬ occursFolded canonicalize literal s.
Proof.
  rewrite search_None. unfold occursFolded. split.
  - intros Hq (pre & m & post & -> & Hm).
    specialize (Hq (length pre)). rewrite drop_app_length in Hq.
    assert (length m = length literal) as Hlen.
    { unfold foldEq in Hm. apply (f_equal length) in Hm.
      by rewrite !length_fmap in Hm. }
    assert (matchesAt canonicalize (m ++ post) literal = true) as Hyes;
      [|congruence].
    apply matchesAt_spec. rewrite length_app, <- Hlen. split; [lia|].
    by rewrite take_app_length.
  - intros Hno q.
    destruct (matchesAt canonicalize (drop q s) literal) eqn:Hm; [|done].
    destruct Hno. apply matchesAt_spec in Hm as [_ Hm].
    exists (take q s), (take (length literal) (drop q s)),
      (drop (length literal) (drop q s)).
    split; [|done]. by rewrite !take_drop.
Qed.

Section Literal.

Variable literal : list N.
Hypothesis literal_not_empty : literal ≠ [].

Lemma literal_length : (0 < length literal)%nat.
Proof. destruct literal; [done|simpl; lia]. Qed.

Lemma matchesAt_nil : matchesAt canonicalize [] literal = false.
Proof. by destruct literal. Qed.

Lemma piece_without_occurrence cur rest :
  (∀ q, (q < length cur)%nat →
        matchesAt canonicalize (drop q (cur ++ rest)) literal = false) →
  search canonicalize literal cur = None.
Proof.
  intros Hcur. apply search_None. intros q.
  destruct (decide (q < length cur)%nat) as [Hq|Hq].
  - specialize (Hcur q Hq). rewrite drop_app_le in Hcur by lia.
    destruct (matchesAt canonicalize (drop q cur) literal) eqn:Hm; [|done].
    by rewrite (matchesAt_app _ rest _ Hm) in Hcur.
  - rewrite drop_ge by lia. apply matchesAt_nil.
Qed.

Lemma splitLoop_spec (fuel : nat) cur rest :
  (length rest ≤ fuel)%nat →
  (∀ q, (q < length cur)%nat →
        matchesAt canonicalize (drop q (cur ++ rest)) literal = false) →
  alternating (λ piece, search canonicalize literal piece = None)
    (λ m, matchesAt canonicalize m literal = true ∧ length m = length literal)
    (splitLoop canonicalize literal fuel cur rest)
  ∧ concat (splitLoop canonicalize literal fuel cur rest) = cur ++ rest.
Proof.
  pose proof literal_length as Hpos.
  revert cur rest. induction fuel as [|fuel IH]; intros cur rest Hfuel Hcur.
  - destruct rest; [|simpl in Hfuel; lia]. simpl. split; [|by rewrite !app_nil_r].
    constructor. rewrite app_nil_r. by eapply piece_without_occurrence.
  - destruct rest as [|c rest]; simpl.
    + split; [|by rewrite !app_nil_r].
      constructor. by eapply piece_without_occurrence.
    + replace (length literal =? 0)%nat with false
        by (symmetry; apply Nat.eqb_neq; lia).
      rewrite andb_false_l, andb_true_r. simpl in Hfuel.
      destruct (matchesAt canonicalize (c :: rest) literal) eqn:Hm.
      * destruct (IH [] (drop (length literal) (c :: rest))) as [Halt Hcat].
        { rewrite length_drop. simpl. lia. }
        { simpl. lia. }
        split.
        -- constructor; [by eapply piece_without_occurrence
                        |by apply matchesAt_take|done].
        -- simpl concat. rewrite Hcat. simpl app at 2.
           by rewrite take_drop.
      * destruct (IH (cur ++ [c]) rest) as [Halt Hcat]; [lia| |].
        { intros q Hq. rewrite <- app_assoc. simpl.
          rewrite length_app in Hq. simpl in Hq.
          destruct (decide (q < length cur)%nat) as [Hlt|Hge];
            [by apply Hcur|].
          replace q with (length cur) by lia.
          by rewrite drop_app_length. }
        split; [done|]. rewrite Hcat, <- app_assoc. done.
Qed.

Lemma split_spec (text : list N) :
  alternating (λ piece, search canonicalize literal piece = None)
    (λ m, matchesAt canonicalize m literal = true ∧ length m = length literal)
    (split canonicalize literal text)
  ∧ concat (split canonicalize literal text) = text.
Proof.
  unfold split. destruct text as [|c text].
  - rewrite matchesAt_nil. split; [|done]. constructor. simpl.
    by rewrite matchesAt_nil.
  - apply splitLoop_spec; simpl; [lia|]. intros q Hq. lia.
Qed.

Lemma test_piece (lastIndex : nat) piece :
  search canonicalize literal piece = None →
  test canonicalize literal lastIndex piece = (false, 0%nat).
Proof.
  intros Hnone. unfold test. destruct (_ <? _)%nat; [done|].
  assert (search canonicalize literal (drop lastIndex piece) = None) as ->;
    [|done].
  apply search_None. intros q. rewrite drop_drop.
  by apply search_None.
Qed.

Lemma test_match m :
  matchesAt canonicalize m literal = true →
  test canonicalize literal 0 m = (true, length literal).
Proof.
  intros Hm. unfold test. simpl. by rewrite drop_0, search_here.
Qed.

Lemma markParts_spec (parts : list (list N)) :
  alternating (λ piece, search canonicalize literal piece = None)
    (λ m, matchesAt canonicalize m literal = true ∧ length m = length literal)
    parts →
  ∀ index lastIndex,
    nodeText <$> markParts canonicalize literal index lastIndex parts = parts
    ∧ ∀ (i : nat) node,
        markParts canonicalize literal index lastIndex parts !! i = Some node →
        if Nat.even i
        then node = Text (nodeText node)
             ∧ ¬ occursFolded canonicalize literal (nodeText node)
        else node = Mark (index + i) (nodeText node)
             ∧ foldEq canonicalize (nodeText node) literal.
Proof.
  induction 1 as [piece Hpiece|piece m parts Hpiece [Hm Hlen] Hparts IH];
    intros index lastIndex.
  - simpl. rewrite test_piece by done. simpl. split; [done|].
    intros [|i] node; [|done]. intros [= <-]. simpl.
    split; [done|]. by apply search_None_occurs.
  - simpl. rewrite test_piece by done. simpl.
    rewrite test_match by done. simpl.
    destruct (IH (S (S index)) (length literal)) as [Htext Hnodes].
    split; [do 2 f_equal; exact Htext|].
    intros [|[|i]] node.
    + intros [= <-]. simpl. split; [done|]. by apply search_None_occurs.
    + intros [= <-]. simpl. split; [f_equal; lia|].
      apply matchesAt_spec in Hm as [_ Hm].
      by rewrite <- Hlen, take_ge in Hm by lia.
    + intros Hnode. specialize (Hnodes i node Hnode). simpl.
      replace (index + S (S i))%nat with (S (S index) + i)%nat by lia.
      done.
Qed.

Lemma alternating_odd {B : Type} (P Q : B → Prop) (l : list B) :
  alternating P Q l → Nat.odd (length l) = true.
Proof. induction 1; [done|]. simpl length. by rewrite Nat.odd_succ_succ. Qed.

End Literal.

End HighlightFacts.

Section HighlightClaims.
Import Search WodCard.

Lemma not_blank_not_empty (search : jsstring) : ¬ blank search → search ≠ [].
Proof. intros Hblank ->. apply Hblank. constructor. Qed.

Lemma highlightText_blank (canonicalize : N → N) (text search : jsstring) :
  blank search → highlightText canonicalize text search = Some (Plain text).
Proof.
  intros Hblank. unfold highlightText.
  apply truthy_trim in Hblank. by rewrite Hblank.
Qed.

Lemma highlightText_parts (canonicalize : N → N) (text search : jsstring) :
  ¬ blank search →
  highlightText canonicalize text search
  = Some (Parts (markParts canonicalize search 0 0
                   (split canonicalize search text))).
Proof.
  intros Hblank. unfold highlightText.
  destruct (truthy (trim search)) eqn:Htrim;
    [|by apply truthy_trim in Htrim].
  simpl negb. cbv iota. by rewrite compile_escape.
Qed.

Lemma blank_or_not (search : jsstring) : blank search ∨ ¬ blank search.
Proof.
  destruct (truthy (trim search)) eqn:Htrim.
  - right. intros Hblank. apply truthy_trim in Hblank. congruence.
  - left. by apply truthy_trim.
Qed.

(** X13: [highlightText] never fails. For a search term that is empty or
    white space it returns the text as it is. For any other term it returns
    an odd number of parts which, put together, are the text: the parts at
    even positions are plain and hold no occurrence of the term up to case;
    the parts at odd positions are marked, carry their position as key, and
    each equals the term up to case. The [lastIndex] that the shared regex
    keeps between the calls of [test] does not disturb this. *)
Theorem highlightText_spec (canonicalize : N → N) (text search : jsstring) :
  (blank search → highlightText canonicalize text search = Some (Plain text))
  ∧ (¬ blank search →
     ∃ nodes,
       highlightText canonicalize text search = Some (Parts nodes)
       ∧ concat (nodeText <$> nodes) = text
       ∧ Nat.odd (length nodes) = true
       ∧ ∀ (i : nat) node, nodes !! i = Some node →
           if Nat.even i
           then node = Text (nodeText node)
                ∧ ¬ occursFolded canonicalize search (nodeText node)
           else node = Mark i (nodeText node)
                ∧ foldEq canonicalize (nodeText node) search).
Proof.
  split; [apply highlightText_blank|].
  intros Hblank. rewrite highlightText_parts by done.
  pose proof (not_blank_not_empty _ Hblank) as Hne.
  destruct (split_spec canonicalize search Hne text) as [Halt Hcat].
  destruct (markParts_spec canonicalize search _ Halt 0 0)
    as [Htext Hnodes].
  eexists. split_and!; [done| | |exact Hnodes].
  - by rewrite Htext.
  - rewrite <- (length_fmap nodeText), Htext. by eapply alternating_odd.
Qed.

(** X14: the content of a card never fails to render. Without a search term
    it is [formatContent] of the record's content; with a search term, be it
    white space only, it shows the record's content code unit by code unit,
    without the variation selectors of [formatContent]. *)
Theorem cardContent_text (canonicalize : N → N) (wod : Wod)
    (searchTerm : jsstring) :
  (searchTerm = [] →
   cardContent canonicalize wod searchTerm
   = Some (Plain (formatContent (content wod))))
  ∧ (searchTerm ≠ [] →
     ∃ r, cardContent canonicalize wod searchTerm = Some r
          ∧ renderedText r = content wod).
Proof.
  unfold cardContent. split; [by intros ->|].
  intros Hterm. destruct searchTerm as [|c term]; [done|]. simpl truthy.
  cbv iota. destruct (blank_or_not (c :: term)) as [Hblank|Hblank].
  - rewrite highlightText_blank by done. eauto.
  - rewrite highlightText_parts by done. eexists. split; [done|]. simpl.
    pose proof (not_blank_not_empty _ Hblank) as Hne.
    destruct (split_spec canonicalize (c :: term) Hne (content wod))
      as [Halt Hcat].
    destruct (markParts_spec canonicalize (c :: term) _ Halt 0 0)
      as [Htext _].
    by rewrite Htext.
Qed.

(** The highlighter at work on "Run 5k run" with the term "RUN", for a
    canonical form that maps the small ASCII letters to the capital ones. *)
Example highlightText_example :
  highlightText (λ c, if (97 <=? c) && (c <=? 122) then c - 32 else c)%N
    [82; 117; 110; 32; 53; 107; 32; 114; 117; 110]%N [82; 85; 78]%N
  = Some (Parts [ Text []; Mark 1 [82; 117; 110]%N;
                  Text [32; 53; 107; 32]%N; Mark 3 [114; 117; 110]%N;
                  Text [] ]).
Proof. reflexivity. Qed.

End HighlightClaims.

(** ** More on the filter and on the order of the grid *)

Section FilterMore.
Import Search Layout WodList.

Lemma occursIn_trans (a b c : jsstring) :
  occursIn a b → occursIn b c → occursIn a c.
Proof.
  intros (pre1 & post1 & ->) (pre2 & post2 & ->).
  exists (pre2 ++ pre1), (post1 ++ post2). by rewrite <- !app_assoc.
Qed.

Lemma List_filter_sublist_impl {B : Type} (f g : B → bool) (l : list B) :
  (∀ x, f x = true → g x = true) →
  List.filter f l `sublist_of` List.filter g l.
Proof.
  intros Hfg. induction l as [|x l IH]; simpl; [done|].
  destruct (f x) eqn:Hf.
  - rewrite (Hfg x Hf). by constructor.
  - destruct (g x); [by constructor|done].
Qed.

(** X15: a longer search term narrows the result: when the lower-cased
    term [t1] occurs in the lower-cased term [t2], and [t2] is not blank,
    the records found for [t2] are among the records found for [t1], in the
    same order. *)
Theorem longer_term_narrows (toLowerCase : jsstring → jsstring)
    (wods : list Wod) (t1 t2 : jsstring) :
  ¬ blank t2 →
  occursIn (toLowerCase t1) (toLowerCase t2) →
  filteredWods toLowerCase wods t2 `sublist_of` filteredWods toLowerCase wods t1.
Proof.
  intros Hblank Hocc.
  destruct (truthy (trim t1)) eqn:Ht1.
  - unfold filteredWods. rewrite Ht1.
    destruct (truthy (trim t2)) eqn:Ht2; [|by apply truthy_trim in Ht2].
    simpl. apply List_filter_sublist_impl. intros w.
    rewrite !includes_spec. by apply occursIn_trans.
  - unfold filteredWods at 2. rewrite Ht1. simpl.
    apply filteredWods_sublist.
Qed.

Lemma longer_term_narrows_witness :
  filteredWods asciiLower
    [mkWod [49] [65; 77; 82; 65; 80]; mkWod [50] [65; 77]]%N [97; 109; 114]%N
  `sublist_of`
  filteredWods asciiLower
    [mkWod [49] [65; 77; 82; 65; 80]; mkWod [50] [65; 77]]%N [65; 77]%N.
Proof.
  apply (longer_term_narrows asciiLower).
  - intros Hblank. apply truthy_trim in Hblank. discriminate.
  - exists [], [114%N]. reflexivity.
Defined.

(** X16: the "no workouts found" presentation is returned exactly for the
    empty list, and the empty list is the only one for which the
    virtualizer is given zero rows; the plain grid variant draws the same
    line. *)
Theorem no_results_iff_empty (env : Env) (st : State) (props : Props) :
  (render env st props = NoResults ↔ wods props = [])
  ∧ (rowCount (wods props) (getColumnCount (innerWidth env)) = 0
     ↔ wods props = [])
  ∧ (renderPlain props = NoResults ↔ wods props = []).
Proof.
  pose proof (getColumnCount_pos (innerWidth env)) as Hc.
  pose proof (rowCount_bounds (wods props) _ Hc) as [Hrows Hnonneg].
  unfold render, renderPlain.
  destruct (Nat.eqb_spec (length (wods props)) 0) as [Hlen|Hlen].
  - apply nil_length_inv in Hlen. rewrite Hlen in *. simpl in *.
    split_and!; split; try done; try (intros _; nia).
  - assert (wods props ≠ []) as Hne by (intros Heq; by rewrite Heq in Hlen).
    split_and!; split; try done. intros Hzero. rewrite Hzero in Hrows. lia.
Qed.

End FilterMore.

Section GridOrder.
Import Layout.

Lemma StronglySorted_lookup {B : Type} (R : relation B) (l : list B)
    (m n : nat) (a b : B) :
  StronglySorted R l → l !! m = Some a → l !! n = Some b → (m < n)%nat → R a b.
Proof.
  intros Hl. revert m n. induction Hl as [|x l Hl IH Hx]; intros m n; [done|].
  destruct m as [|m], n as [|n]; simpl; try lia.
  - intros [= <-] Hb _. rewrite Forall_forall in Hx.
    apply Hx. by eapply list_elem_of_lookup_2.
  - intros Ha Hb Hmn. apply (IH m n); [done|done|lia].
Qed.

(** X17: the grid reads in date order. For the list that the dashboard
    hands down, at any column count [c ≥ 1], every record of an earlier row
    is at least as recent as every record of a later row. *)
Theorem rows_in_date_order (getTime : jsstring → Z)
    (toLowerCase : jsstring → jsstring)
    (entries : list (jsstring * jsstring)) (term : jsstring)
    (c : Z) (i j : nat) (a b : Wod) :
  1 ≤ c → (i < j)%nat →
  a ∈ rowWods (WodList.wods (Dashboard.listProps
         (Dashboard.render getTime toLowerCase entries term))) c (Z.of_nat i) →
  b ∈ rowWods (WodList.wods (Dashboard.listProps
         (Dashboard.render getTime toLowerCase entries term))) c (Z.of_nat j) →
  getTime (date b) ≤ getTime (date a).
Proof.
  intros Hc Hij Ha Hb.
  set (l := WodList.wods (Dashboard.listProps
              (Dashboard.render getTime toLowerCase entries term))) in *.
  assert (StronglySorted (latestFirst getTime) l) as Hsorted.
  { eapply StronglySorted_sublist;
      [apply filteredWods_sublist|apply sort_latestFirst]. }
  apply list_elem_of_lookup in Ha as [p Hp], Hb as [q Hq].
  pose proof (lookup_lt_Some _ _ _ Hp) as Hplen.
  assert (Z.of_nat (length (rowWods l c (Z.of_nat i))) ≤ c) as Hrow.
  { rewrite rowWods_length by done. nia. }
  assert (Z.of_nat (length (rowWods l c (Z.of_nat j))) ≤ c) as Hrow'.
  { rewrite rowWods_length by done. nia. }
  pose proof (lookup_lt_Some _ _ _ Hq) as Hqlen.
  rewrite rowWods_lookup in Hp by lia.
  rewrite rowWods_lookup in Hq by lia.
  apply (StronglySorted_lookup _ _ _ _ _ _ Hsorted Hp Hq). nia.
Qed.

Lemma rows_in_date_order_witness :
  Dashboard.wods unitTime example_entries
  = [mkWod [50%N] [98%N]; mkWod [49%N] [99%N]; mkWod [48%N] [97%N]]
  ∧ unitTime (date (mkWod [49%N] [99%N])) ≤ unitTime (date (mkWod [50%N] [98%N])).
Proof.
  split; [reflexivity|].
  apply (rows_in_date_order unitTime Search.asciiLower example_entries []
           1 0 1 (mkWod [50%N] [98%N]) (mkWod [49%N] [99%N]));
    [lia|lia|vm_compute; constructor|vm_compute; constructor].
Defined.

End GridOrder.
